(** * A shallow embedding of [text_editor.py]

    The program is one class, [TextEditor], that wires a Tk text widget to
    file dialogs, string prompts and the file system.  The definitions
    come first, in four layers:

    - [Unicode]: Python [str] values as lists of code points, the strict
      UTF-8 codec that [open(..., encoding='utf-8')] uses, the newline
      translation of Python's text mode, and [str.replace];
    - [Disk]: the files the program can read and write;
    - [Tk]: the part of the text widget the program calls ([get], [insert],
      [delete], [search], [tag_add], [tag_remove], [edit_modified],
      [mark_set]) together with the [<<Modified>>] virtual event;
    - [App]: the methods of [TextEditor], one definition per method, with
      the same names, and the event loop that delivers [<<Modified>>];

    then [Display], what the status bar shows, [Spec], the notions the
    statements are written with, the lemmas about each layer, [Claims],
    one theorem for each claim of the specification, and [Extras],
    further properties of the same code. *)

From Stdlib Require Import NArith Ascii String List Lia Bool.
From Stdlib.Strings Require Import Byte.
From stdpp Require Import gmap strings list pretty.

Local Open Scope N_scope.

(** ** Python text and the UTF-8 codec *)

Module Unicode.

(** A Python [str] is a sequence of code points. *)
Definition codepoint := N.
Definition pystr := list codepoint.

Definition LF : codepoint := 10.
Definition CR : codepoint := 13.

(** [str "abc"] is the text of an ASCII literal. *)
Definition str (s : string) : pystr :=
  map N_of_ascii (list_ascii_of_string s).

Definition byte_of (n : N) : byte := default "000"%byte (Byte.of_N n).

Definition is_cont (b : byte) : bool :=
  (0x80 <=? Byte.to_N b) && (Byte.to_N b <? 0xC0).

Definition cont (b : byte) : N := Byte.to_N b - 0x80.

Definition is_surrogate (c : codepoint) : bool :=
  (0xD800 <=? c) && (c <=? 0xDFFF).

(** The encoder of the [utf-8] codec with [errors='strict']: surrogates
    are refused ([UnicodeEncodeError]); a Python [str] holds nothing above
    U+10FFFF, the model refuses such a value as well. *)
Definition utf8_encode_char (c : codepoint) : option (list byte) :=
  if c <? 0x80 then Some [byte_of c]
  else if c <? 0x800 then
    Some [byte_of (0xC0 + c / 64); byte_of (0x80 + c mod 64)]
  else if c <? 0x10000 then
    if is_surrogate c then None
    else Some [byte_of (0xE0 + c / 4096);
               byte_of (0x80 + (c / 64) mod 64);
               byte_of (0x80 + c mod 64)]
  else if c <=? 0x10FFFF then
    Some [byte_of (0xF0 + c / 262144);
          byte_of (0x80 + (c / 4096) mod 64);
          byte_of (0x80 + (c / 64) mod 64);
          byte_of (0x80 + c mod 64)]
  else None.

Fixpoint utf8_encode (t : pystr) : option (list byte) :=
  match t with
  | [] => Some []
  | c :: t' =>
    match utf8_encode_char c, utf8_encode t' with
    | Some a, Some b => Some (a ++ b)
    | _, _ => None
    end
  end.

(** The decoder of the [utf-8] codec with [errors='strict']: a stray or
    missing continuation byte, an overlong form, an encoded surrogate or a
    value above U+10FFFF is a [UnicodeDecodeError] ([None]). *)
Fixpoint utf8_decode (bs : list byte) : option pystr :=
  match bs with
  | [] => Some []
  | b0 :: r0 =>
    let n0 := Byte.to_N b0 in
    if n0 <? 0x80 then cons n0 <$> utf8_decode r0
    else if n0 <? 0xC0 then None
    else if n0 <? 0xE0 then
      match r0 with
      | b1 :: r1 =>
        let c := (n0 - 0xC0) * 64 + cont b1 in
        if is_cont b1 && (0x80 <=? c)
        then cons c <$> utf8_decode r1 else None
      | _ => None
      end
    else if n0 <? 0xF0 then
      match r0 with
      | b1 :: b2 :: r2 =>
        let c := (n0 - 0xE0) * 4096 + cont b1 * 64 + cont b2 in
        if is_cont b1 && is_cont b2 && (0x800 <=? c) && negb (is_surrogate c)
        then cons c <$> utf8_decode r2 else None
      | _ => None
      end
    else if n0 <? 0xF8 then
      match r0 with
      | b1 :: b2 :: b3 :: r3 =>
        let c := (n0 - 0xF0) * 262144 + cont b1 * 4096
                 + cont b2 * 64 + cont b3 in
        if is_cont b1 && is_cont b2 && is_cont b3
           && (0x10000 <=? c) && (c <=? 0x10FFFF)
        then cons c <$> utf8_decode r3 else None
      | _ => None
      end
    else None
  end.

(** Reading in text mode with [newline=None] (the default of [open]):
    ["\r\n"] and a lone ["\r"] both become ["\n"]. *)
Fixpoint universal_newlines (t : pystr) : pystr :=
  match t with
  | [] => []
  | c :: t' =>
    if c =? CR then
      LF :: match t' with
            | [] => []
            | d :: t'' =>
              if d =? LF then universal_newlines t'' else universal_newlines t'
            end
    else c :: universal_newlines t'
  end.

(** [str.replace(old, new)]: the occurrences of [old] are found from left
    to right and do not overlap; [skip] counts the characters of the
    occurrence just replaced that are still to be passed over.  An empty
    [old] matches before every character and at the end. *)
Fixpoint starts_with (p s : pystr) : bool :=
  match p, s with
  | [], _ => true
  | a :: p', b :: s' => (a =? b) && starts_with p' s'
  | _ :: _, [] => false
  end.

Fixpoint replace_from (old new : pystr) (skip : nat) (s : pystr) : pystr :=
  match s with
  | [] => []
  | c :: s' =>
    match skip with
    | S k => replace_from old new k s'
    | O =>
      if starts_with old s
      then new ++ replace_from old new (length old - 1) s'
      else c :: replace_from old new 0 s'
    end
  end.

Definition str_replace (old new s : pystr) : pystr :=
  match old with
  | [] => new ++ flat_map (fun c => c :: new) s
  | _ :: _ => replace_from old new 0 s
  end.

End Unicode.

(** ** The file system *)

Module Disk.

Inductive exn :=
| FileNotFoundError
| PermissionError
| UnicodeDecodeError
| UnicodeEncodeError.

Record file := File {
  data : list byte;
  readable : bool;
  writable : bool
}.

(** [files] are the files that exist; [sealed] are the paths at which no
    file can be created (the directory is read-only). *)
Record disk := MkDisk {
  files : gmap string file;
  sealed : gset string
}.

Inductive result (A : Type) :=
| Ok (a : A)
| Raise (e : exn).
Arguments Ok {A} a.
Arguments Raise {A} e.

(** [open(path, 'r')] up to the bytes that [read()] will see. *)
Definition open_r (d : disk) (path : string) : result (list byte) :=
  match files d !! path with
  | None => Raise FileNotFoundError
  | Some f => if readable f then Ok (data f) else Raise PermissionError
  end.

(** [open(path, 'w')]: an existing file is truncated, a missing one is
    created. *)
Definition open_w (d : disk) (path : string) : result disk :=
  match files d !! path with
  | Some f =>
    if writable f
    then Ok (MkDisk (<[path := File [] (readable f) true]> (files d)) (sealed d))
    else Raise PermissionError
  | None =>
    if decide (path ∈ sealed d) then Raise PermissionError
    else Ok (MkDisk (<[path := File [] true true]> (files d)) (sealed d))
  end.

(** [file.write(bs)] on a file just opened with ['w'], then [close]. *)
Definition write (d : disk) (path : string) (bs : list byte) : disk :=
  MkDisk (alter (fun f => File bs (readable f) (writable f)) path (files d))
         (sealed d).

Definition contents (d : disk) (path : string) : option (list byte) :=
  data <$> files d !! path.

End Disk.

(** ** The Tk text widget

    The widget is not part of the repository; the model follows the Tk
    manual page [text(n)]:

    - the widget always ends with a newline that cannot be deleted;
      [get 1.0 end] returns it, [delete 1.0 end] leaves it, and an
      [insert] at [end] puts the new text just before it;
    - a tag is a property of characters: deleted characters take their
      tags with them, inserted characters receive a tag only when the
      characters on both sides of the insertion point carry it;
    - "Inserting or deleting text will set [the modified] flag ...
      Whenever the flag changes state a [<<Modified>>] virtual event is
      generated", whether the change comes from an edit or from
      [edit modified boolean];
    - virtual events are appended to the event queue and delivered by the
      main loop after the running callback has returned.

    Positions are character offsets from index [1.0]; offset
    [end_index w] is the final newline and [S (end_index w)] is the index
    [end]. *)

Module Tk.
Import Unicode.

Local Open Scope nat_scope.

Record Text := MkText {
  cells : list (codepoint * bool);  (* characters before the final newline,
                                       each with its "found" tag *)
  nl_found : bool;                  (* the "found" tag of the final newline *)
  dirty : bool;                     (* the modified flag *)
  queued : nat;                     (* <<Modified>> events not yet delivered *)
  insert_mark : nat                 (* the mark "insert", the cursor *)
}.

Definition empty : Text := MkText [] false false 0 0.

Definition chars (w : Text) : pystr := map fst (cells w).

Definition end_index (w : Text) : nat := length (cells w).

(** [w.get(1.0, END)] *)
Definition get_all (w : Text) : pystr := chars w ++ [LF].

(** Whether the character at offset [k] carries the tag "found". *)
Definition tag_at (w : Text) (k : nat) : bool :=
  match cells w !! k with
  | Some (_, b) => b
  | None => (k =? end_index w) && nl_found w
  end.

(** An edit sets the modified flag; the event is generated when the flag
    changes state. *)
Definition set_dirty (w : Text) : Text :=
  if dirty w then w
  else MkText (cells w) (nl_found w) true (S (queued w)) (insert_mark w).

(** [w.edit_modified()] *)
Definition edit_modified (w : Text) : bool := dirty w.

(** [w.edit_modified(b)] *)
Definition edit_modified_set (b : bool) (w : Text) : Text :=
  if eqb (dirty w) b then w
  else MkText (cells w) (nl_found w) b (S (queued w)) (insert_mark w).

(** [w.insert(p, s)]; a mark at the insertion point moves with the text. *)
Definition insert_at (p : nat) (s : pystr) (w : Text) : Text :=
  let p := Nat.min p (end_index w) in
  match s with
  | [] => w
  | _ :: _ =>
    let inherit := (0 <? p) && tag_at w (p - 1) && tag_at w p in
    set_dirty
      (MkText (take p (cells w) ++ map (fun c => (c, inherit)) s
                 ++ drop p (cells w))
              (nl_found w) (dirty w) (queued w)
              (if p <=? insert_mark w then insert_mark w + length s
               else insert_mark w))
  end.

(** [w.delete(a, b)]; the final newline stays. *)
Definition delete_range (a b : nat) (w : Text) : Text :=
  let b := Nat.min b (end_index w) in
  if a <? b then
    set_dirty
      (MkText (take a (cells w) ++ drop b (cells w))
              (nl_found w) (dirty w) (queued w)
              (if insert_mark w <=? a then insert_mark w
               else if insert_mark w <? b then a
               else insert_mark w - (b - a)))
  else w.

(** [w.insert(END, s)] and [w.delete(1.0, END)] *)
Definition insert_end (s : pystr) (w : Text) : Text :=
  insert_at (end_index w) s w.

Definition delete_all (w : Text) : Text :=
  delete_range 0 (S (end_index w)) w.

(** [w.tag_remove("found", "1.0", END)] *)
Definition tag_remove_all (w : Text) : Text :=
  MkText (map (fun c => (fst c, false)) (cells w))
         false (dirty w) (queued w) (insert_mark w).

(** [w.tag_add("found", i, j)] *)
Definition tag_add (i j : nat) (w : Text) : Text :=
  let hit k := (i <=? k) && (k <? j) in
  MkText (imap (fun k c => (fst c, snd c || hit k)) (cells w))
         (nl_found w || hit (end_index w))
         (dirty w) (queued w) (insert_mark w).

(** [w.tag_ranges("found")]: the maximal runs of tagged characters, each
    as the offsets of its first character and of the character after its
    last; [from] is where the run that is open began. *)
Fixpoint runs (tags : list bool) (pos : nat) (from : option nat)
  : list (nat * nat) :=
  match tags with
  | [] =>
    match from with
    | Some a => [(a, pos)]
    | None => []
    end
  | true :: tags' =>
    runs tags' (S pos) (Some (default pos from))
  | false :: tags' =>
    match from with
    | Some a => (a, pos) :: runs tags' (S pos) None
    | None => runs tags' (S pos) None
    end
  end.

Definition tag_ranges (w : Text) : list (nat * nat) :=
  runs (map snd (cells w) ++ [nl_found w]) 0 None.

(** The index [i + n chars]: indices stop at [end]. *)
Definition index_plus (w : Text) (i n : nat) : nat :=
  Nat.min (i + n) (S (end_index w)).

(** [w.mark_set("insert", i)]; a mark cannot pass the final newline. *)
Definition mark_set_insert (i : nat) (w : Text) : Text :=
  MkText (cells w) (nl_found w) (dirty w) (queued w)
         (Nat.min i (end_index w)).

(** The offset of index [n+1 . 0], the start of line [n] counted from 0;
    a line past the last one gives the end of the text. *)
Fixpoint line_start (n : nat) (t : pystr) : nat :=
  match n with
  | 0 => 0
  | S n' =>
    match t with
    | [] => 0
    | c :: t' => S (if (c =? LF)%N then line_start n' t' else line_start n t')
    end
  end.

(** The offset of the index ["{line}.0"] for a Python integer [line]. *)
Definition line_index (line : Z) (w : Text) : nat :=
  line_start (Z.to_nat (line - 1)) (chars w).

Section Search.

(** Tcl's case folding ([Tcl_UniCharToLower]) is a table of the Unicode
    data base; it is a parameter of the model. *)
Variable tolower : codepoint -> codepoint.

Fixpoint starts_with_nocase (p s : pystr) : bool :=
  match p, s with
  | [], _ => true
  | a :: p', b :: s' => (tolower a =? tolower b)%N && starts_with_nocase p' s'
  | _ :: _, [] => false
  end.

(** The offset of the first occurrence of [p] in [s]. *)
Fixpoint first_match (p s : pystr) : option nat :=
  if starts_with_nocase p s then Some 0
  else match s with
       | [] => None
       | _ :: s' => S <$> first_match p s'
       end.

(** [w.search(term, idx, nocase=1, stopindex=END)]: the index of the
    first occurrence that starts at or after [idx], [None] for the empty
    string that Tk returns when there is none. *)
Definition search (term : pystr) (idx : nat) (w : Text) : option nat :=
  (fun k => idx + k) <$> first_match term (drop idx (get_all w)).

End Search.

(** ASCII case folding, the restriction of Tcl's table to U+0000..U+007F. *)
Definition ascii_tolower (c : codepoint) : codepoint :=
  if ((0x41 <=? c) && (c <=? 0x5A))%N then (c + 0x20)%N else c.

End Tk.

(** ** The editor *)

Module App.
Import Unicode Disk Tk.

Local Open Scope nat_scope.

(** The modal dialogs of [filedialog] and [simpledialog]. *)
Inductive prompt :=
| askopenfilename
| asksaveasfilename
| askstring (title label : string)
| askinteger (title label : string).

(** The fields of [TextEditor] that the methods read and write, the disk,
    the dialogs shown so far and whether [mainloop] is still running.  The
    gutter canvas and the status label are output only: nothing reads them
    back, so [_update_line_numbers] and [_update_status_bar] leave this
    state as it is. *)
Record Editor := MkEditor {
  filename : option string;
  modified : bool;
  text : Text;
  disk : Disk.disk;
  prompts : list prompt;
  running : bool
}.

(** What a callback leaves behind: it returns, or an exception leaves it. *)
Inductive outcome :=
| Returns (s : Editor)
| Raises (e : exn) (s : Editor).

Definition state_of (o : outcome) : Editor :=
  match o with
  | Returns s => s
  | Raises _ s => s
  end.

Definition raises (o : outcome) : bool :=
  match o with
  | Returns _ => false
  | Raises _ _ => true
  end.

Definition set_filename (f : option string) (s : Editor) : Editor :=
  MkEditor f (modified s) (text s) (disk s) (prompts s) (running s).
Definition set_modified (b : bool) (s : Editor) : Editor :=
  MkEditor (filename s) b (text s) (disk s) (prompts s) (running s).
Definition set_text (w : Text) (s : Editor) : Editor :=
  MkEditor (filename s) (modified s) w (disk s) (prompts s) (running s).
Definition set_disk (d : Disk.disk) (s : Editor) : Editor :=
  MkEditor (filename s) (modified s) (text s) d (prompts s) (running s).
Definition ask (p : prompt) (s : Editor) : Editor :=
  MkEditor (filename s) (modified s) (text s) (disk s) (prompts s ++ [p])
           (running s).

(** Truthiness of a path ([''] is false) and of [self.filename]. *)
Definition chosen (path : string) : bool := negb (String.eqb path "").
Definition known (f : option string) : bool :=
  match f with
  | Some path => chosen path
  | None => false
  end.

(** [__init__] on a given disk. *)
Definition init (d : Disk.disk) : Editor :=
  MkEditor None false Tk.empty d [] true.

Definition _update_line_numbers (s : Editor) : Editor := s.
Definition _update_status_bar (s : Editor) : Editor := s.

(** [_on_modified], the handler bound to [<<Modified>>]. *)
Definition _on_modified (s : Editor) : Editor :=
  let s := set_modified (edit_modified (text s)) s in
  let s := _update_line_numbers s in
  let s := _update_status_bar s in
  set_text (edit_modified_set false (text s)) s.

Definition _new_file (s : Editor) : Editor :=
  let s := set_filename None s in
  let s := set_text (delete_all (text s)) s in
  let s := set_modified false s in
  _update_status_bar s.

(** [_open_file]; [path] is what the file chooser returns.  The buffer is
    cleared inside the [with] block, before [file.read()] decodes. *)
Definition _open_file (path : string) (s : Editor) : outcome :=
  let s := ask askopenfilename s in
  if chosen path then
    match open_r (disk s) path with
    | Raise e => Raises e s
    | Ok bytes =>
      let s := set_text (delete_all (text s)) s in
      match utf8_decode bytes with
      | None => Raises UnicodeDecodeError s
      | Some t =>
        let s := set_text (insert_end (universal_newlines t) (text s)) s in
        let s := set_filename (Some path) s in
        let s := set_modified false s in
        let s := set_text (mark_set_insert (S (end_index (text s))) (text s)) s in
        Returns (_update_status_bar s)
      end
    end
  else Returns s.

(** The [if] branch of [_save_file]: ['w'] truncates the file, then the
    whole of [get(1.0, END)] is encoded and written.  The line separator
    of the system is ["\n"] (the script starts with [#!/usr/bin/python3]),
    so text mode writes every newline as it is. *)
Definition save_to (path : string) (s : Editor) : outcome :=
  match open_w (disk s) path with
  | Raise e => Raises e s
  | Ok d =>
    let s := set_disk d s in
    match utf8_encode (get_all (text s)) with
    | None => Raises UnicodeEncodeError s
    | Some bytes =>
      let s := set_disk (write (disk s) path bytes) s in
      let s := set_modified false s in
      Returns (_update_status_bar s)
    end
  end.

(** [_save_file] and [_save_file_as] call each other; [fuel] bounds the
    depth of the calls and [None] means that it ran out.  [path] is what
    the file chooser returns. *)
Fixpoint _save_file (fuel : nat) (path : string) (s : Editor)
  : option outcome :=
  match fuel with
  | 0 => None
  | S fuel =>
    match filename s with
    | Some name =>
      if chosen name then Some (save_to name s)
      else _save_file_as fuel path s
    | None => _save_file_as fuel path s
    end
  end
with _save_file_as (fuel : nat) (path : string) (s : Editor)
  : option outcome :=
  match fuel with
  | 0 => None
  | S fuel =>
    let s := ask asksaveasfilename s in
    if chosen path then _save_file fuel path (set_filename (Some path) s)
    else Some (Returns s)
  end.

Definition _goto_line (line : option Z) (s : Editor) : Editor :=
  let s := ask (askinteger "Go to line" "Line number:") s in
  match line with
  | Some n =>
    if (n =? 0)%Z then s
    else set_text (mark_set_insert (line_index n (text s)) (text s)) s
  | None => s
  end.

Definition _replace (find replace : option pystr) (s : Editor) : Editor :=
  let s := ask (askstring "Replace" "Find:") s in
  let s := ask (askstring "Replace" "Replace with:") s in
  match find, replace with
  | Some (c :: f), Some r =>
    let content := get_all (text s) in
    let content := str_replace (c :: f) r content in
    let s := set_text (delete_all (text s)) s in
    set_text (insert_end content (text s)) s
  | _, _ => s
  end.

(** [self.quit()] stops [mainloop]. *)
Definition quit (s : Editor) : Editor :=
  MkEditor (filename s) (modified s) (text s) (disk s) (prompts s) false.

Section Find.
Variable tolower : codepoint -> codepoint.

(** The [while True] loop of [_find]; [None] when [fuel] runs out. *)
Fixpoint find_loop (fuel : nat) (term : pystr) (idx : nat) (w : Text)
  : option Text :=
  match fuel with
  | 0 => None
  | S fuel =>
    match search tolower term idx w with
    | None => Some w
    | Some idx =>
      let lastidx := index_plus w idx (length term) in
      find_loop fuel term lastidx (tag_add idx lastidx w)
    end
  end.

Definition _find (fuel : nat) (term : option pystr) (s : Editor)
  : option Editor :=
  let s := ask (askstring "Find" "Find:") s in
  match term with
  | Some (c :: t) =>
    w ← find_loop fuel (c :: t) 0 (tag_remove_all (text s));
    Some (set_text w s)
  | _ => Some s
  end.

(** The key chords of [_setup_keybindings]. *)
Inductive key :=
| Control_n | Control_e | Control_s | Control_S
| Control_q | Control_f | Control_h | Control_l.

(** What the user would enter in each dialog. *)
Record answers := MkAnswers {
  path_answer : string;
  find_answer : option pystr;
  replace_answer : option pystr;
  line_answer : option Z
}.

Definition on_key (fuel : nat) (k : key) (a : answers) (s : Editor)
  : option outcome :=
  match k with
  | Control_n => Some (Returns (_new_file s))
  | Control_e => Some (_open_file (path_answer a) s)
  | Control_s => _save_file fuel (path_answer a) s
  | Control_S => _save_file_as fuel (path_answer a) s
  | Control_q => Some (Returns (quit s))
  | Control_f => Returns <$> _find fuel (find_answer a) s
  | Control_h => Some (Returns (_replace (find_answer a) (replace_answer a) s))
  | Control_l => Some (Returns (_goto_line (line_answer a) s))
  end.

(** *** The main loop *)

(** The user types or pastes [s] at offset [p], or deletes the characters
    from [a] up to [b] (the class bindings of the text widget). *)
Inductive edit :=
| Insert (p : nat) (s : pystr)
| Delete (a b : nat).

Definition user_edit (e : edit) (s : Editor) : Editor :=
  match e with
  | Insert p t => set_text (insert_at p t (text s)) s
  | Delete a b => set_text (delete_range a b (text s)) s
  end.

(** Whether an edit changes the text of [s]. *)
Definition changes (e : edit) (s : Editor) : bool :=
  match e with
  | Insert _ t => negb (length t =? 0)
  | Delete a b => a <? Nat.min b (end_index (text s))
  end.

(** The main loop takes one [<<Modified>>] event off the queue and calls
    the handler. *)
Definition deliver (s : Editor) : option Editor :=
  match queued (text s) with
  | 0 => None
  | S n =>
    let w := text s in
    Some (_on_modified
            (set_text (MkText (cells w) (nl_found w) (dirty w) n
                              (insert_mark w)) s))
  end.

(** Deliver events until the queue is empty. *)
Fixpoint run_events (fuel : nat) (s : Editor) : option Editor :=
  match deliver s with
  | None => Some s
  | Some s' =>
    match fuel with
    | 0 => None
    | S fuel => run_events fuel s'
    end
  end.

Definition idle (s : Editor) : Prop :=
  queued (text s) = 0 /\ dirty (text s) = false.

Inductive action :=
| Edit (e : edit)
| Press (k : key) (a : answers).

(** One turn of the main loop: a user action, then the events it queued.
    An exception that leaves a callback is reported by Tkinter and the
    loop goes on from the state the callback left. *)
Definition turn (fuel : nat) (act : action) (s : Editor) : option Editor :=
  match act with
  | Edit e => run_events fuel (user_edit e s)
  | Press k a => o ← on_key fuel k a s; run_events fuel (state_of o)
  end.

(** The states in which the editor waits for the user. *)
Inductive reachable : Editor -> Prop :=
| reach_init d : reachable (init d)
| reach_turn fuel act s s' :
    reachable s -> running s = true -> turn fuel act s = Some s' ->
    reachable s'.

End Find.

End App.

(** ** What the status bar shows *)

Module Display.
Import Unicode Disk Tk App.
Local Open Scope nat_scope.

(** [os.path.basename] on a POSIX path: what follows the last ['/']. *)
Fixpoint has_sep (p : string) : bool :=
  match p with
  | EmptyString => false
  | String c r => Ascii.eqb c "/" || has_sep r
  end.

Fixpoint basename (p : string) : string :=
  match p with
  | EmptyString => EmptyString
  | String _ r => if has_sep p then basename r else p
  end.

(** The index [row.col] of the character at offset [k], as
    [w.index(...)] gives it: rows count from 1, columns from 0; [row] and
    [col] are those of the first character of [t]. *)
Fixpoint row_col (t : pystr) (k row col : nat) : nat * nat :=
  match k, t with
  | S k', c :: t' =>
    if (c =? LF)%N then row_col t' k' (S row) 0 else row_col t' k' row (S col)
  | _, _ => (row, col)
  end.

Definition index_of (w : Text) (k : nat) : nat * nat :=
  row_col (chars w) k 1 0.

(** The number of newlines of a text, and of lines of the buffer. *)
Fixpoint newlines (t : pystr) : nat :=
  match t with
  | [] => 0
  | c :: t' => if (c =? LF)%N then S (newlines t') else newlines t'
  end.

Definition line_count (w : Text) : nat := S (newlines (chars w)).

(** The characters after the last newline of a text. *)
Fixpoint last_line (t : pystr) : pystr :=
  match t with
  | [] => []
  | _ :: t' => if 0 <? newlines t then last_line t' else t
  end.

(** The name [_update_status_bar] shows, with its mark when [modified]. *)
Definition status_name (s : Editor) : string :=
  let name := match filename s with
              | Some path => if chosen path then basename path else "Untitled"
              | None => "Untitled"
              end in
  if modified s then name ++ "*" else name.

(** The text [_update_status_bar] puts in the status label when it is
    called in state [s]:
    [f"{name}    Ln {row}, Col {int(col)+1}"]. *)
Definition status_text (s : Editor) : string :=
  let '(row, col) := index_of (text s) (insert_mark (text s)) in
  status_name s ++ "    Ln " ++ pretty row ++ ", Col " ++ pretty (col + 1).

(** The two key chords that save. *)
Definition saves (k : key) : bool :=
  match k with
  | Control_s | Control_S => true
  | _ => false
  end.

(** The key chords that can change [self.filename]. *)
Definition renames (k : key) : bool :=
  match k with
  | Control_n | Control_e | Control_s | Control_S => true
  | _ => false
  end.

End Display.

(** ** Notions used in the statements *)

Module Spec.
Import Unicode Disk Tk App.
Local Open Scope nat_scope.

(** The widget flag is set only together with an event in the queue. *)
Definition calm (w : Text) : Prop := dirty w = true -> 0 < queued w.

(** Two states that differ at most in the modified flags and the event queue. *)
Definition same_document (s s' : Editor) : Prop :=
  cells (text s') = cells (text s) /\ nl_found (text s') = nl_found (text s)
  /\ insert_mark (text s') = insert_mark (text s)
  /\ filename s' = filename s /\ disk s' = disk s
  /\ prompts s' = prompts s /\ running s' = running s.

(** The widget flags, the text and the cursor are as they were. *)
Definition same_flags (w w' : Text) : Prop :=
  chars w' = chars w /\ dirty w' = dirty w /\ queued w' = queued w
  /\ insert_mark w' = insert_mark w.

(** No callback has left [modified] set, and the widget flag is set only
    with its event still to come. *)
Definition quiet (s : Editor) : Prop :=
  modified s = false /\ calm (text s).

(** The buffer, the path, the flag and the disk are as they were. *)
Definition untouched (s s' : Editor) : Prop :=
  text s' = text s /\ filename s' = filename s
  /\ modified s' = modified s /\ disk s' = disk s.

(** The path Save writes to: the current one when it is known, otherwise
    the one chosen in the Save-As dialog, if any. *)
Definition save_target (answer : string) (s : Editor) : option string :=
  if known (filename s) then filename s
  else if chosen answer then Some answer
  else None.

(** The file cannot be opened for reading, or its bytes are not UTF-8. *)
Definition read_fails (d : Disk.disk) (path : string) : Prop :=
  match open_r d path with
  | Raise _ => True
  | Ok bytes => utf8_decode bytes = None
  end.

(** The file cannot be opened for writing, or the text has no UTF-8 form. *)
Definition write_fails (d : Disk.disk) (path : string) (t : pystr) : Prop :=
  match open_w d path with
  | Raise _ => True
  | Ok _ => utf8_encode t = None
  end.

(** An editor at rest whose buffer holds [t]. *)
Definition editing (t : pystr) (d : Disk.disk) : Editor :=
  MkEditor None false
           (MkText (map (fun c => (c, false)) t) false false 0 (length t))
           d [] true.

(** A disk with one file. *)
Definition one_file (path : string) (bytes : list byte) : Disk.disk :=
  MkDisk {[ path := File bytes true true ]} ∅.

(** [old] occurs in [s] as a substring, character for character. *)
Definition occurs (old s : pystr) : Prop :=
  exists a b, s = a ++ old ++ b.

(** A literal, global replacement, in the words of the specification:
    the leftmost occurrence of [old] is replaced by [new], and so on in
    what follows it; a text without occurrence stays as it is. *)
Inductive replaced (old new : pystr) : pystr -> pystr -> Prop :=
| replaced_none s :
    ~ occurs old s -> replaced old new s s
| replaced_first a b b' :
    (forall a' c', a ++ old ++ b = a' ++ old ++ c' -> length a <= length a') ->
    replaced old new b b' ->
    replaced old new (a ++ old ++ b) (a ++ new ++ b').

Section Occurrences.
Variable tolower : codepoint -> codepoint.

(** [term] occurs in [t] at offset [q], case apart. *)
Definition occurs_at (term t : pystr) (q : nat) : Prop :=
  map tolower (take (length term) (drop q t)) = map tolower term.

(** The occurrences found from left to right from offset [start], each
    search resuming where the occurrence before it ends: the ranges
    [(q, q + length term)] of the specification. *)
Inductive leftmost (term t : pystr) : nat -> list (nat * nat) -> Prop :=
| leftmost_done start :
    (forall q, start <= q -> ~ occurs_at term t q) ->
    leftmost term t start []
| leftmost_hit start q rs :
    start <= q -> occurs_at term t q ->
    (forall q', start <= q' < q -> ~ occurs_at term t q') ->
    leftmost term t (q + length term) rs ->
    leftmost term t start ((q, q + length term) :: rs).

End Occurrences.

(** Offset [k] lies in one of the ranges. *)
Definition covered (rs : list (nat * nat)) (k : nat) : bool :=
  existsb (fun r => (fst r <=? k) && (k <? snd r)) rs.

End Spec.

(** ** The codec is a bijection between texts and well-formed UTF-8 *)

Module Codec.
Import Unicode.

Ltac Zify.zify_post_hook ::= Z.to_euclidean_division_equations.

Lemma to_N_lt (b : byte) : Byte.to_N b < 256.
Proof. pose proof (Byte.to_N_bounded b). lia. Qed.

Lemma byte_of_to_N (b : byte) : byte_of (Byte.to_N b) = b.
Proof. unfold byte_of. now rewrite Byte.of_to_N. Qed.

Lemma to_N_byte_of (n : N) : n < 256 -> Byte.to_N (byte_of n) = n.
Proof.
  intros Hn. unfold byte_of.
  destruct (Byte.of_N n) as [b|] eqn:E; simpl.
  - now apply Byte.to_of_N.
  - apply Byte.of_N_None_iff in E. lia.
Qed.

Ltac bools :=
  repeat match goal with
  | H : _ && _ = true |- _ => apply andb_true_iff in H; destruct H
  | H : negb _ = true |- _ => apply negb_true_iff in H
  | H : _ && _ = false |- _ => apply andb_false_iff in H
  | H : (_ <=? _) = true |- _ => apply N.leb_le in H
  | H : (_ <? _) = true |- _ => apply N.ltb_lt in H
  | H : (_ <=? _) = false |- _ => apply N.leb_gt in H
  | H : (_ <? _) = false |- _ => apply N.ltb_ge in H
  end.

(** Which branch of the encoder a code point takes. *)
Ltac encoder_branch :=
  unfold utf8_encode_char, is_surrogate;
  repeat match goal with
  | |- context [?a <? ?b] =>
      destruct (N.ltb_spec a b); try lia
  | |- context [?a <=? ?b] =>
      destruct (N.leb_spec a b); try lia
  end; cbn [andb].

Ltac same_byte b :=
  match goal with
  | |- context [byte_of ?n] =>
      replace n with (Byte.to_N b) by lia; rewrite (byte_of_to_N b)
  end.

Lemma decode_encode_le (n : nat) :
  forall bs t, (length bs <= n)%nat ->
    utf8_decode bs = Some t -> utf8_encode t = Some bs.
Proof.
  induction n as [|n IH]; intros [|b0 r0] t Hlen H;
    simpl in Hlen; try lia; try (injection H as <-; reflexivity).
  cbn [utf8_decode] in H. cbv zeta in H.
  pose proof (to_N_lt b0) as B0.
  destruct (Byte.to_N b0 <? 0x80) eqn:C1.
  { destruct (utf8_decode r0) as [t0|] eqn:E; [|discriminate].
    injection H as <-. cbn [utf8_encode]. rewrite (IH r0 t0) by (auto; lia).
    bools. encoder_branch. now rewrite byte_of_to_N. }
  destruct (Byte.to_N b0 <? 0xC0) eqn:C2; [discriminate|].
  destruct (Byte.to_N b0 <? 0xE0) eqn:C3.
  { destruct r0 as [|b1 r1]; [discriminate|].
    pose proof (to_N_lt b1) as B1.
    match type of H with (if ?c then _ else _) = _ =>
      destruct c eqn:C4; [|discriminate] end.
    destruct (utf8_decode r1) as [t1|] eqn:E; [|discriminate].
    injection H as <-. cbn [utf8_encode].
    rewrite (IH r1 t1) by (auto; simpl in Hlen; lia).
    unfold is_cont, cont in *. bools. encoder_branch.
    same_byte b0. same_byte b1. reflexivity. }
  destruct (Byte.to_N b0 <? 0xF0) eqn:C5.
  { destruct r0 as [|b1 [|b2 r2]]; try discriminate.
    pose proof (to_N_lt b1) as B1. pose proof (to_N_lt b2) as B2.
    match type of H with (if ?c then _ else _) = _ =>
      destruct c eqn:C4; [|discriminate] end.
    destruct (utf8_decode r2) as [t2|] eqn:E; [|discriminate].
    injection H as <-. cbn [utf8_encode].
    rewrite (IH r2 t2) by (auto; simpl in Hlen; lia).
    unfold is_cont, cont, is_surrogate in *. bools. 
    encoder_branch; same_byte b0; same_byte b1; same_byte b2; reflexivity. }
  destruct (Byte.to_N b0 <? 0xF8) eqn:C6; [|discriminate].
  destruct r0 as [|b1 [|b2 [|b3 r3]]]; try discriminate.
  pose proof (to_N_lt b1) as B1. pose proof (to_N_lt b2) as B2.
  pose proof (to_N_lt b3) as B3.
  match type of H with (if ?c then _ else _) = _ =>
    destruct c eqn:C4; [|discriminate] end.
  destruct (utf8_decode r3) as [t3|] eqn:E; [|discriminate].
  injection H as <-. cbn [utf8_encode].
  rewrite (IH r3 t3) by (auto; simpl in Hlen; lia).
  unfold is_cont, cont in *. bools. encoder_branch.
  same_byte b0. same_byte b1. same_byte b2. same_byte b3. reflexivity.
Qed.


Ltac decoder_branch :=
  repeat match goal with
  | |- context [?a <? ?b] => destruct (N.ltb_spec a b); try lia
  | |- context [?a <=? ?b] => destruct (N.leb_spec a b); try lia
  end; cbn [andb negb].

Lemma encode_char_decode (c : codepoint) (a r : list byte) :
  utf8_encode_char c = Some a ->
  utf8_decode (a ++ r) = cons c <$> utf8_decode r.
Proof.
  unfold utf8_encode_char, is_surrogate.
  destruct (N.ltb_spec c 0x80).
  { intros [= <-]. cbn [app utf8_decode]. cbv zeta.
    rewrite to_N_byte_of by lia. decoder_branch. reflexivity. }
  destruct (N.ltb_spec c 0x800).
  { intros [= <-]. cbn [app utf8_decode]. cbv zeta.
    unfold is_cont, cont. rewrite !to_N_byte_of by lia. decoder_branch.
    f_equal. f_equal. lia. }
  destruct (N.ltb_spec c 0x10000).
  { destruct (N.leb_spec 0xD800 c), (N.leb_spec c 0xDFFF);
      cbn [andb]; try discriminate;
      intros [= <-]; cbn [app utf8_decode]; cbv zeta;
      unfold is_cont, cont, is_surrogate; rewrite !to_N_byte_of by lia;
      decoder_branch; f_equal; f_equal; lia. }
  destruct (N.leb_spec c 0x10FFFF); [|discriminate].
  intros [= <-]. cbn [app utf8_decode]. cbv zeta.
  unfold is_cont, cont. rewrite !to_N_byte_of by lia. decoder_branch.
  f_equal. f_equal. lia.
Qed.

Lemma encode_decode (t : pystr) (bs : list byte) :
  utf8_encode t = Some bs -> utf8_decode bs = Some t.
Proof.
  revert bs. induction t as [|c t IH]; intros bs; cbn [utf8_encode].
  - now intros [= <-].
  - destruct (utf8_encode_char c) as [a|] eqn:Ec; [|discriminate].
    destruct (utf8_encode t) as [b|]; [|discriminate].
    intros [= <-]. rewrite (encode_char_decode _ _ _ Ec), (IH b); reflexivity.
Qed.

Lemma decode_encode (bs : list byte) (t : pystr) :
  utf8_decode bs = Some t -> utf8_encode t = Some bs.
Proof. apply (decode_encode_le (length bs)). lia. Qed.

Lemma utf8_encode_app (t1 t2 : pystr) (b1 b2 : list byte) :
  utf8_encode t1 = Some b1 -> utf8_encode t2 = Some b2 ->
  utf8_encode (t1 ++ t2) = Some (b1 ++ b2).
Proof.
  revert b1. induction t1 as [|c t1 IH]; intros b1; cbn [utf8_encode app].
  - intros [= <-] H. exact H.
  - destruct (utf8_encode_char c) as [a|]; [|discriminate].
    destruct (utf8_encode t1) as [b|]; [|discriminate].
    intros [= <-] H. rewrite (IH b eq_refl H). now rewrite app_assoc.
Qed.

Lemma encode_Forall (t : pystr) :
  is_Some (utf8_encode t) <-> Forall (fun c => is_Some (utf8_encode_char c)) t.
Proof.
  induction t as [|c t IH]; cbn [utf8_encode].
  - split; [constructor | eexists; reflexivity].
  - rewrite Forall_cons, <- IH.
    destruct (utf8_encode_char c), (utf8_encode t); split;
      try (intros [? [=]]); try (intros [[? [=]] [? [=]]]);
      try (intros [[? [=]] _]); try (intros [_ [? [=]]]);
      repeat split; eexists; reflexivity.
Qed.

Lemma universal_newlines_Forall (P : codepoint -> Prop) (n : nat) :
  P LF -> forall t, (length t <= n)%nat ->
  Forall P t -> Forall P (universal_newlines t).
Proof.
  intros HLF. induction n as [|n IH]; intros [|c t] Hlen Ht;
    cbn [universal_newlines]; try constructor; simpl in Hlen; try lia.
  apply Forall_cons in Ht as [Hc Ht].
  destruct (c =? CR).
  - constructor; [exact HLF|]. destruct t as [|d t]; [constructor|].
    apply Forall_cons in Ht as [Hd Ht'].
    destruct (d =? LF); apply IH; simpl in *; try lia; auto.
  - constructor; [exact Hc|]. apply IH; [lia | exact Ht].
Qed.

Lemma universal_newlines_id (t : pystr) :
  CR ∉ t -> universal_newlines t = t.
Proof.
  induction t as [|c t IH]; [reflexivity|]. intros H.
  apply not_elem_of_cons in H as [Hc Ht]. cbn [universal_newlines].
  destruct (N.eqb_spec c CR); [congruence|]. now rewrite IH.
Qed.

(** "é€" and an emoji, and three ill-formed inputs: an overlong form, an
    encoded surrogate and a lone continuation byte. *)
Example decode_well_formed :
  utf8_decode [xc3; xa9; xe2; x82; xac; xf0; x9f; x98; x80]%byte
  = Some [0xE9; 0x20AC; 0x1F600].
Proof. reflexivity. Qed.

Example decode_ill_formed :
  utf8_decode [xc0; x80]%byte = None
  /\ utf8_decode [xed; xa0; x80]%byte = None
  /\ utf8_decode [x80]%byte = None.
Proof. repeat split. Qed.

Example encode_surrogate : utf8_encode [0x61; 0xD800] = None.
Proof. reflexivity. Qed.

Example newlines_translated :
  universal_newlines (str "a" ++ [CR; LF; CR; CR; LF] ++ str "b")
  = str "a" ++ [LF; LF; LF] ++ str "b".
Proof. reflexivity. Qed.

End Codec.

(** ** The widget *)

Module Widget.
Import Unicode Tk Spec.
Local Open Scope nat_scope.

Lemma set_dirty_cells w : cells (set_dirty w) = cells w.
Proof. unfold set_dirty. now destruct (dirty w). Qed.

Lemma set_dirty_nl_found w : nl_found (set_dirty w) = nl_found w.
Proof. unfold set_dirty. now destruct (dirty w). Qed.

Lemma set_dirty_dirty w : dirty (set_dirty w) = true.
Proof. unfold set_dirty. now destruct (dirty w) eqn:E. Qed.

Lemma set_dirty_queued w :
  queued (set_dirty w) = if dirty w then queued w else S (queued w).
Proof. unfold set_dirty. now destruct (dirty w) eqn:E. Qed.

Lemma set_dirty_calm w : calm w -> calm (set_dirty w).
Proof.
  unfold calm. rewrite set_dirty_queued. destruct (dirty w); intros; auto; lia.
Qed.

Lemma chars_insert_end s w : chars (insert_end s w) = chars w ++ s.
Proof.
  unfold insert_end, insert_at, chars, end_index.
  rewrite Nat.min_id. destruct s as [|c s]; [now rewrite app_nil_r|].
  rewrite set_dirty_cells. cbn [cells].
  rewrite firstn_all, skipn_all, app_nil_r, map_app, map_map.
  cbn [fst]. now rewrite map_id.
Qed.

Lemma cells_delete_all w : cells (delete_all w) = [].
Proof.
  unfold delete_all, delete_range, end_index.
  rewrite Nat.min_r by lia.
  destruct (Nat.ltb_spec 0 (length (cells w))) as [L|L].
  - rewrite set_dirty_cells. cbn [cells]. now rewrite skipn_all.
  - destruct (cells w); [reflexivity | simpl in L; lia].
Qed.

Lemma chars_delete_all w : chars (delete_all w) = [].
Proof. unfold chars. now rewrite cells_delete_all. Qed.

Lemma nl_found_delete_all w : nl_found (delete_all w) = nl_found w.
Proof.
  unfold delete_all, delete_range.
  destruct (_ <? _); [now rewrite set_dirty_nl_found | reflexivity].
Qed.

Lemma insert_at_calm p s w : calm w -> calm (insert_at p s w).
Proof.
  unfold insert_at. destruct s; [auto|]. intros H. now apply set_dirty_calm.
Qed.

Lemma delete_range_calm a b w : calm w -> calm (delete_range a b w).
Proof.
  unfold delete_range. destruct (_ <? _); [|auto]. intros H.
  now apply set_dirty_calm.
Qed.

(** A change of the text sets the flag and, when the flag was clear,
    queues the event. *)
Lemma insert_at_flags p s w :
  s <> [] ->
  dirty (insert_at p s w) = true
  /\ queued (insert_at p s w) = if dirty w then queued w else S (queued w).
Proof.
  unfold insert_at. destruct s; [congruence|]. intros _.
  now rewrite set_dirty_dirty, set_dirty_queued.
Qed.

Lemma delete_range_flags a b w :
  a < Nat.min b (end_index w) ->
  dirty (delete_range a b w) = true
  /\ queued (delete_range a b w) = if dirty w then queued w else S (queued w).
Proof.
  unfold delete_range. intros H. apply Nat.ltb_lt in H. rewrite H.
  now rewrite set_dirty_dirty, set_dirty_queued.
Qed.

Lemma cells_rewritten (t : pystr) (w : Text) :
  cells (insert_end t (delete_all w)) = map (fun c => (c, false)) t.
Proof.
  pose proof (Widget.cells_delete_all w) as E.
  unfold insert_end, insert_at, end_index.
  destruct t as [|c t]; [exact E|].
  rewrite Widget.set_dirty_cells. cbn [cells]. rewrite E.
  cbn [length Nat.min take drop app]. rewrite app_nil_r.
  apply map_ext. intros x. reflexivity.
Qed.

Lemma flags_rewritten (t : pystr) (w : Text) :
  t <> [] ->
  dirty (insert_end t (delete_all w)) = true
  /\ queued (insert_end t (delete_all w))
     = if dirty w then queued w else S (queued w).
Proof.
  intros Ht. unfold insert_end.
  destruct (Widget.insert_at_flags (end_index (delete_all w)) t
              (delete_all w) Ht) as [-> ->].
  split; [reflexivity|]. unfold delete_all, delete_range.
  destruct (_ <? _); [|reflexivity].
  rewrite Widget.set_dirty_dirty, Widget.set_dirty_queued. reflexivity.
Qed.

Lemma chars_mark_set_insert i w : chars (mark_set_insert i w) = chars w.
Proof. reflexivity. Qed.

Lemma tag_at_tag_add (i j : nat) (w : Text) (k : nat) :
  j <= S (end_index w) ->
  tag_at (tag_add i j w) k = tag_at w k || ((i <=? k) && (k <? j)).
Proof.
  intros Hj. unfold tag_at, tag_add, end_index. cbn [cells nl_found].
  rewrite list_lookup_imap, length_imap.
  destruct (cells w !! k) as [[c b]|] eqn:E; cbn [fmap option_fmap option_map fst snd].
  - reflexivity.
  - apply lookup_ge_None in E. unfold end_index in Hj.
    destruct (Nat.eqb_spec k (length (cells w))) as [->|Hne]; cbn [andb].
    + reflexivity.
    + destruct (Nat.ltb_spec k j); [lia|]. now rewrite andb_false_r.
Qed.

Lemma tag_at_tag_remove_all (w : Text) (k : nat) :
  tag_at (tag_remove_all w) k = false.
Proof.
  unfold tag_at, tag_remove_all. cbn [cells nl_found].
  rewrite list_lookup_fmap.
  destruct (cells w !! k) as [[c b]|]; cbn; [reflexivity|].
  apply andb_false_r.
Qed.

Lemma chars_tag_add (i j : nat) (w : Text) : chars (tag_add i j w) = chars w.
Proof.
  unfold chars, tag_add. cbn [cells].
  apply list_eq. intros k. rewrite !list_lookup_fmap, list_lookup_imap.
  now destruct (cells w !! k).
Qed.

Lemma chars_tag_remove_all (w : Text) : chars (tag_remove_all w) = chars w.
Proof.
  unfold chars, tag_remove_all. cbn [cells]. rewrite map_map. reflexivity.
Qed.

Lemma get_all_tag_add (i j : nat) (w : Text) :
  get_all (tag_add i j w) = get_all w.
Proof. unfold get_all. now rewrite chars_tag_add. Qed.

Lemma length_get_all (w : Text) : length (get_all w) = S (end_index w).
Proof.
  unfold get_all, chars, end_index. rewrite length_app, length_map.
  simpl. lia.
Qed.

End Widget.

(** ** The event loop *)

Module Events.
Import Unicode Disk Tk App Spec.
Local Open Scope nat_scope.

Lemma same_document_refl s : same_document s s.
Proof. repeat split. Qed.

Lemma same_document_trans s1 s2 s3 :
  same_document s1 s2 -> same_document s2 s3 -> same_document s1 s3.
Proof. unfold same_document. intuition congruence. Qed.

Lemma deliver_spec s s' :
  deliver s = Some s' ->
  same_document s s' /\ modified s' = dirty (text s)
  /\ dirty (text s') = false
  /\ 0 < queued (text s)
  /\ queued (text s') + 1 = queued (text s) + (if dirty (text s) then 1 else 0).
Proof.
  unfold deliver. destruct (queued (text s)) as [|n] eqn:Q; [discriminate|].
  intros [= <-]. unfold _on_modified, edit_modified_set, edit_modified,
    _update_status_bar, _update_line_numbers, same_document. cbn.
  destruct (dirty (text s)); cbn; repeat split; lia.
Qed.

Lemma deliver_none s : deliver s = None <-> queued (text s) = 0.
Proof. unfold deliver. destruct (queued (text s)); split; congruence. Qed.

(** The handler ends by clearing the widget flag, which queues the event
    once more; the second delivery reads the cleared flag. *)
Lemma run_events_spec fuel : forall s s',
  run_events fuel s = Some s' ->
  same_document s s' /\ queued (text s') = 0
  /\ (queued (text s) = 0 -> s' = s)
  /\ (0 < queued (text s) -> modified s' = false /\ dirty (text s') = false).
Proof.
  induction fuel as [|fuel IH]; intros s s'; cbn [run_events];
    destruct (deliver s) as [s1|] eqn:D.
  - discriminate.
  - intros [= <-]. apply deliver_none in D.
    split; [apply same_document_refl|]. repeat split; auto; lia.
  - intros R. destruct (deliver_spec _ _ D) as (F & M & Dy & Q0 & Q).
    destruct (IH _ _ R) as (F' & Q' & Z & P).
    split; [eapply same_document_trans; eauto|]. split; [auto|].
    split; [intros; exfalso; lia|]. intros _.
    destruct (queued (text s1)) as [|m] eqn:Q1.
    + rewrite (Z eq_refl). destruct (dirty (text s)) eqn:E; [lia|]. now rewrite M, Dy.
    + apply P. lia.
  - intros [= <-]. apply deliver_none in D.
    split; [apply same_document_refl|]. repeat split; auto; lia.
Qed.

Lemma run_events_total fuel : forall s,
  queued (text s) + (if dirty (text s) then 1 else 0) <= fuel ->
  is_Some (run_events fuel s).
Proof.
  induction fuel as [|fuel IH]; intros s Hf; cbn [run_events];
    destruct (deliver s) as [s1|] eqn:D; try (eexists; reflexivity).
  - destruct (deliver_spec _ _ D) as (_ & _ & _ & Q0 & Q). exfalso. destruct (dirty (text s)); lia.
  - destruct (deliver_spec _ _ D) as (_ & _ & Dy & _ & Q). apply IH.
    rewrite Dy. lia.
Qed.

(** The last line of the handler is the call that fires the event again,
    so the same holds when Tk calls the handler from inside
    [edit_modified(False)] instead of queueing the event: two calls in a
    row leave [modified] false. *)
Lemma on_modified_twice (s : Editor) :
  modified (_on_modified (_on_modified s)) = false
  /\ dirty (text (_on_modified (_on_modified s))) = false.
Proof.
  unfold _on_modified, edit_modified_set, edit_modified,
    _update_status_bar, _update_line_numbers.
  cbn [text modified set_text set_modified].
  destruct (dirty (text s)) eqn:D; cbn; rewrite ?D; cbn; rewrite ?D;
    split; reflexivity.
Qed.

(** One pending event on a set flag: the handler runs twice, and the
    second run clears [modified]. *)
Lemma fires_then_clears (s : Editor) :
  dirty (text s) = true -> queued (text s) = 1 ->
  exists s1 s2,
    deliver s = Some s1 /\ modified s1 = true
    /\ run_events 2 s = Some s2 /\ modified s2 = false
    /\ idle s2 /\ same_document s s2.
Proof.
  intros Fd Fq.
  destruct (deliver s) as [s1|] eqn:E1.
  2:{ apply Events.deliver_none in E1. lia. }
  destruct (Events.run_events_total 2 s) as [s2 E2].
  { rewrite Fd, Fq. lia. }
  exists s1, s2.
  destruct (Events.deliver_spec _ _ E1) as (_ & M & _).
  destruct (Events.run_events_spec _ _ _ E2) as (Fr & Q2 & _ & P).
  destruct P as [M2 D2]; [lia|].
  repeat split; auto; try congruence; apply Fr.
Qed.

End Events.

(** ** Opening and saving *)

Module Files.
Import Unicode Disk Tk App Spec Codec Widget Events.
Local Open Scope nat_scope.

Lemma contents_written d d' path bytes :
  open_w d path = Ok d' ->
  contents (write d' path bytes) path = Some bytes
  /\ forall other, other <> path ->
       files (write d' path bytes) !! other = files d !! other.
Proof.
  unfold open_w, write, contents. cbn [files].
  destruct (files d !! path) as [f|] eqn:E.
  - destruct (writable f); [|discriminate]. intros [= <-]. cbn [files]. split.
    + now rewrite lookup_alter_eq, lookup_insert_eq.
    + intros other Hne. now rewrite lookup_alter_ne, lookup_insert_ne.
  - destruct (decide _); [discriminate|]. intros [= <-]. cbn [files]. split.
    + now rewrite lookup_alter_eq, lookup_insert_eq.
    + intros other Hne. now rewrite lookup_alter_ne, lookup_insert_ne.
Qed.

Lemma save_to_ok path s d bytes :
  open_w (disk s) path = Ok d ->
  utf8_encode (get_all (text s)) = Some bytes ->
  exists s',
    save_to path s = Returns s'
    /\ contents (disk s') path = Some bytes
    /\ (forall other, other <> path ->
          files (disk s') !! other = files (disk s) !! other)
    /\ modified s' = false /\ filename s' = filename s
    /\ text s' = text s /\ prompts s' = prompts s.
Proof.
  intros Ho He. unfold save_to. rewrite Ho. cbn [text set_disk]. rewrite He.
  eexists. split; [reflexivity|].
  destruct (contents_written _ _ _ bytes Ho) as [C O].
  cbn. repeat split; auto.
Qed.

Lemma save_to_raises path s :
  raises (save_to path s) = true <->
  write_fails (disk s) path (get_all (text s)).
Proof.
  unfold save_to, write_fails. destruct (open_w (disk s) path); cbn.
  - destruct (utf8_encode _); cbn; split; congruence.
  - tauto.
Qed.

(** Two calls are enough for Save, one more for Save-As first. *)
Lemma save_file_unfold fuel answer s :
  _save_file (S (S (S fuel))) answer s =
  Some (match save_target answer s with
        | Some target =>
          if known (filename s) then save_to target s
          else save_to target
                 (set_filename (Some target) (ask asksaveasfilename s))
        | None => Returns (ask asksaveasfilename s)
        end).
Proof.
  unfold save_target. cbn [_save_file _save_file_as known].
  destruct (filename s) as [name|] eqn:F; cbn [known].
  - destruct (chosen name) eqn:C; [reflexivity|].
    cbn [filename ask set_filename].
    destruct (chosen answer) eqn:A; [|reflexivity]. try rewrite A; reflexivity.
  - cbn [filename ask set_filename].
    destruct (chosen answer) eqn:A; [|reflexivity]. try rewrite A; reflexivity.
Qed.

Lemma save_file_as_unfold fuel answer s :
  _save_file_as (S (S fuel)) answer s =
  Some (if chosen answer
        then save_to answer
               (set_filename (Some answer) (ask asksaveasfilename s))
        else Returns (ask asksaveasfilename s)).
Proof.
  cbn [_save_file_as _save_file filename ask set_filename].
  destruct (chosen answer) eqn:A; [|reflexivity]. try rewrite A; reflexivity.
Qed.

Lemma ask_untouched p s : untouched s (ask p s).
Proof. repeat split. Qed.

Lemma open_file_ok path s bytes t :
  chosen path = true ->
  open_r (disk s) path = Ok bytes ->
  utf8_decode bytes = Some t ->
  exists s1,
    _open_file path s = Returns s1
    /\ chars (text s1) = universal_newlines t
    /\ filename s1 = Some path /\ modified s1 = false
    /\ disk s1 = disk s
    /\ insert_mark (text s1) = end_index (text s1).
Proof.
  intros C O D. unfold _open_file. rewrite C. cbn [disk ask]. rewrite O, D.
  eexists. split; [reflexivity|].
  cbn [text set_text set_filename set_modified _update_status_bar filename
       modified disk].
  rewrite chars_mark_set_insert, Widget.chars_insert_end,
    Widget.chars_delete_all.
  repeat split; auto.
  unfold mark_set_insert, end_index. cbn [insert_mark cells]. lia.
Qed.

End Files.

(** ** Replacing *)

Module Replace.
Import Unicode Disk Tk App Spec Widget.
Local Open Scope nat_scope.

Lemma starts_with_spec (p s : pystr) :
  starts_with p s = true <-> exists b, s = p ++ b.
Proof.
  revert s. induction p as [|a p IH]; intros s; cbn [starts_with].
  - split; [eexists; reflexivity | reflexivity].
  - destruct s as [|c s].
    + split; [discriminate | intros [b [=]]].
    + rewrite andb_true_iff, N.eqb_eq, IH. split.
      * intros [-> [b ->]]. now exists b.
      * intros [b [= -> ->]]. split; [reflexivity | now exists b].
Qed.

Lemma starts_with_snoc (x : codepoint) (p s : pystr) :
  x ∉ p -> p <> [] -> starts_with p (s ++ [x]) = starts_with p s.
Proof.
  revert s. induction p as [|a p IH]; intros s Hx Hp; [congruence|].
  apply not_elem_of_cons in Hx as [Hxa Hxp].
  destruct s as [|c s]; cbn [app starts_with].
  - destruct (N.eqb_spec a x); [congruence | reflexivity].
  - destruct p as [|a' p]; [now destruct s | rewrite IH; auto; discriminate].
Qed.

Lemma replace_from_skip (old new x b : pystr) :
  replace_from old new (length x) (x ++ b) = replace_from old new 0 b.
Proof. induction x as [|c x IH]; [now destruct b | exact IH]. Qed.

Lemma replace_from_hit (old new b : pystr) :
  old <> [] ->
  replace_from old new 0 (old ++ b) = new ++ replace_from old new 0 b.
Proof.
  destruct old as [|c old]; [congruence|]. intros _.
  cbn [app replace_from].
  assert (H : starts_with (c :: old) (c :: old ++ b) = true).
  { apply starts_with_spec. now exists b. }
  rewrite H. replace (length (c :: old) - 1) with (length old) by (simpl; lia).
  now rewrite replace_from_skip.
Qed.

Lemma replace_from_miss (old new : pystr) (c : codepoint) (s : pystr) :
  starts_with old (c :: s) = false ->
  replace_from old new 0 (c :: s) = c :: replace_from old new 0 s.
Proof. intros H. cbn [replace_from]. now rewrite H. Qed.

Lemma replaced_cons (old new : pystr) (c : codepoint) (s r : pystr) :
  starts_with old (c :: s) = false ->
  replaced old new s r -> replaced old new (c :: s) (c :: r).
Proof.
  intros Hs Hr.
  assert (Hne : forall a b, c :: s = a ++ old ++ b -> exists a', a = c :: a').
  { intros [|c' a] b E.
    - exfalso. apply not_true_iff_false in Hs. apply Hs.
      apply starts_with_spec. now exists b.
    - injection E as <- _. now exists a. }
  destruct Hr as [s Hno | a b b' Hfirst Hr].
  - apply replaced_none. intros (a & b & E).
    destruct (Hne a b E) as [a' ->]. injection E as E.
    apply Hno. now exists a', b.
  - apply (replaced_first old new (c :: a) b b'); [|exact Hr].
    intros a' c' E. destruct (Hne a' c' E) as [a'' ->].
    injection E as E. apply Hfirst in E. simpl. lia.
Qed.

Lemma replace_from_replaced (old new : pystr) (n : nat) :
  old <> [] -> forall s, length s <= n ->
  replaced old new s (replace_from old new 0 s).
Proof.
  intros Hold.
  induction n as [|n IH]; intros [|c s] Hlen; simpl in Hlen; try lia.
  - apply replaced_none. intros (a & b & E).
    destruct a, old; try discriminate; congruence.
  - apply replaced_none. intros (a & b & E).
    destruct a, old; try discriminate; congruence.
  - destruct (starts_with old (c :: s)) eqn:Hs.
    + apply starts_with_spec in Hs as [b E]. rewrite E.
      rewrite replace_from_hit by exact Hold.
      apply (replaced_first old new [] b); [intros; simpl; lia|].
      apply IH. apply (f_equal (@length _)) in E.
      rewrite length_app in E. simpl in E.
      destruct old; [congruence | simpl in E; lia].
    + rewrite replace_from_miss by exact Hs.
      apply replaced_cons; [exact Hs | apply IH; lia].
Qed.

(** Python's [str.replace] is the literal global replacement. *)
Lemma str_replace_replaced (old new s : pystr) :
  old <> [] -> replaced old new s (str_replace old new s).
Proof.
  intros Hold. unfold str_replace. destruct old as [|o old']; [congruence|].
  now apply (replace_from_replaced _ _ (length s)).
Qed.

(** The specification determines the result. *)
Lemma replaced_unique (old new s r1 r2 : pystr) :
  replaced old new s r1 -> replaced old new s r2 -> r1 = r2.
Proof.
  intros H1. revert r2.
  induction H1 as [s Hno | a b b' Hfirst H1 IH]; intros r2 H2.
  - inversion H2 as [s' Hno' | a2 b2 b2' Hfirst2 H2' E]; subst; [reflexivity|].
    exfalso. apply Hno. now exists a2, b2.
  - remember (a ++ old ++ b) as s eqn:Es.
    destruct H2 as [s Hno' | a2 b2 b2' Hfirst2 H2'].
    + exfalso. apply Hno'. now exists a, b.
    + pose proof (Hfirst a2 b2 eq_refl) as L1.
      pose proof (Hfirst2 a b Es) as L2.
      apply app_inj_1 in Es as [-> Eb]; [|lia].
      apply app_inv_head in Eb as ->. f_equal. f_equal. now apply IH.
Qed.

Lemma replace_from_absent (old new s : pystr) :
  ~ occurs old s -> replace_from old new 0 s = s.
Proof.
  induction s as [|c s IH]; [reflexivity|]. intros Hno.
  rewrite replace_from_miss.
  - f_equal. apply IH. intros (a & b & ->). apply Hno. now exists (c :: a), b.
  - apply not_true_iff_false. intros H. apply starts_with_spec in H as [b E].
    apply Hno. now exists [], b.
Qed.

Lemma str_replace_absent (old new s : pystr) :
  old <> [] -> ~ occurs old s -> str_replace old new s = s.
Proof.
  intros Hold Hno. unfold str_replace. destruct old; [congruence|].
  now apply replace_from_absent.
Qed.

Lemma starts_with_length (p s : pystr) :
  starts_with p s = true -> length p <= length s.
Proof.
  intros H. apply starts_with_spec in H as [b ->]. rewrite length_app. lia.
Qed.

(** A term without newline never takes part of the final newline. *)
Lemma replace_from_snoc (old new : pystr) :
  LF ∉ old -> old <> [] -> forall s skip, skip <= length s ->
  replace_from old new skip (s ++ [LF]) = replace_from old new skip s ++ [LF].
Proof.
  intros HLF Hold. induction s as [|c s IH]; intros skip Hk.
  - simpl in Hk. replace skip with 0 by lia. cbn [app replace_from].
    pose proof (starts_with_snoc LF old [] HLF Hold) as H.
    cbn [app] in H. rewrite H. destruct old; [congruence | reflexivity].
  - cbn [app replace_from]. destruct skip as [|k].
    + change (c :: s ++ [LF]) with ((c :: s) ++ [LF]).
      rewrite starts_with_snoc by assumption.
      destruct (starts_with old (c :: s)) eqn:Hs.
      * apply starts_with_length in Hs. simpl in Hs.
        rewrite IH by lia. now rewrite app_assoc.
      * now rewrite IH by lia.
    + apply IH. simpl in Hk. lia.
Qed.

Lemma str_replace_snoc (old new s : pystr) :
  LF ∉ old -> old <> [] ->
  str_replace old new (s ++ [LF]) = str_replace old new s ++ [LF].
Proof.
  intros HLF Hold. unfold str_replace. destruct old; [congruence|].
  apply replace_from_snoc; auto; lia.
Qed.

Lemma chars_replace (s : Editor) (c : codepoint) (f r : pystr) :
  chars (text (_replace (Some (c :: f)) (Some r) s))
  = str_replace (c :: f) r (get_all (text s)).
Proof.
  unfold _replace. cbn [text set_text ask]. unfold chars.
  rewrite cells_rewritten, map_map. cbn [fst]. apply map_id.
Qed.

(** ["aaaaa".replace("aa", "b")] and ["abc".replace("", "-")] in Python. *)
Example replace_does_not_overlap :
  str_replace (str "aa") (str "b") (str "aaaaa") = str "bba".
Proof. reflexivity. Qed.

Example replace_empty_term :
  str_replace [] (str "-") (str "abc") = str "-a-b-c-".
Proof. reflexivity. Qed.

Example replace_is_case_sensitive :
  str_replace (str "foo") (str "bar") (str "Foo foo") = str "Foo bar".
Proof. reflexivity. Qed.

End Replace.

(** ** Searching *)

Module Finding.
Import Unicode Disk Tk App Spec Widget.
Local Open Scope nat_scope.

Section WithFolding.
Variable tolower : codepoint -> codepoint.

Lemma starts_with_nocase_spec (p s : pystr) :
  starts_with_nocase tolower p s = true <-> occurs_at tolower p s 0.
Proof.
  unfold occurs_at. rewrite drop_0.
  revert s. induction p as [|a p IH]; intros s; cbn [starts_with_nocase].
  - split; reflexivity.
  - destruct s as [|c s]; cbn [length take map].
    + split; discriminate.
    + rewrite andb_true_iff, N.eqb_eq, IH. split.
      * intros [E1 E2]. congruence.
      * intros [= E1 E2]. auto.
Qed.

Lemma occurs_at_cons (p : pystr) (c : codepoint) (s : pystr) (q : nat) :
  occurs_at tolower p (c :: s) (S q) <-> occurs_at tolower p s q.
Proof. reflexivity. Qed.

Lemma occurs_at_bound (p s : pystr) (q : nat) :
  p <> [] -> occurs_at tolower p s q -> q + length p <= length s.
Proof.
  unfold occurs_at. intros Hp H. apply (f_equal (@length _)) in H.
  rewrite !length_map, length_take, length_drop in H.
  destruct p; [congruence|]. cbn [length] in *. lia.
Qed.

Lemma first_match_spec (p : pystr) : p <> [] -> forall s,
  match first_match tolower p s with
  | Some k => occurs_at tolower p s k
              /\ forall j, j < k -> ~ occurs_at tolower p s j
  | None => forall j, ~ occurs_at tolower p s j
  end.
Proof.
  intros Hp. induction s as [|c s IH]; cbn [first_match].
  - destruct (starts_with_nocase tolower p []) eqn:E.
    + apply starts_with_nocase_spec in E. split; [exact E | intros; lia].
    + intros j H. apply occurs_at_bound in H; [|exact Hp].
      destruct p; [congruence | simpl in H; lia].
  - destruct (starts_with_nocase tolower p (c :: s)) eqn:E.
    + apply starts_with_nocase_spec in E. split; [exact E | intros; lia].
    + apply not_true_iff_false in E. rewrite starts_with_nocase_spec in E.
      destruct (first_match tolower p s) as [k|]; cbn [fmap option_fmap option_map].
      * destruct IH as [H1 H2]. split; [now apply occurs_at_cons|].
        intros [|j] Hj; [exact E|]. rewrite occurs_at_cons. apply H2. lia.
      * intros [|j]; [exact E|]. rewrite occurs_at_cons. apply IH.
Qed.

Lemma occurs_at_drop (p s : pystr) (i k : nat) :
  occurs_at tolower p (drop i s) k <-> occurs_at tolower p s (i + k).
Proof. unfold occurs_at. now rewrite drop_drop. Qed.

Lemma search_spec (term : pystr) (idx : nat) (w : Text) :
  term <> [] ->
  match search tolower term idx w with
  | Some i => idx <= i /\ occurs_at tolower term (get_all w) i
              /\ forall q, idx <= q < i -> ~ occurs_at tolower term (get_all w) q
  | None => forall q, idx <= q -> ~ occurs_at tolower term (get_all w) q
  end.
Proof.
  intros Hp. unfold search.
  pose proof (first_match_spec term Hp (drop idx (get_all w))) as H.
  destruct (first_match tolower term (drop idx (get_all w))) as [k|];
    cbn [fmap option_fmap option_map].
  - destruct H as [H1 H2]. split; [lia|]. split; [now apply occurs_at_drop|].
    intros q Hq. replace q with (idx + (q - idx)) by lia.
    rewrite <- occurs_at_drop. apply H2. lia.
  - intros q Hq. replace q with (idx + (q - idx)) by lia.
    rewrite <- occurs_at_drop. apply H.
Qed.

End WithFolding.

(** The occurrences found from left to right are determined. *)
Lemma leftmost_unique tolower (term t : pystr) (start : nat)
    (rs rs' : list (nat * nat)) :
  leftmost tolower term t start rs -> leftmost tolower term t start rs' ->
  rs = rs'.
Proof.
  intros H. revert rs'.
  induction H as [start Hno | start q rs Hq Ho Hfirst H IH]; intros rs' H'.
  - destruct H' as [start Hno' | start q' rs' Hq' Ho' Hfirst' H'];
      [reflexivity|]. exfalso. now apply (Hno q').
  - destruct H' as [start Hno' | start q' rs' Hq' Ho' Hfirst' H'].
    + exfalso. now apply (Hno' q).
    + assert (q = q') as <-.
      { destruct (Nat.lt_trichotomy q q') as [L|[E|L]]; [|exact E|].
        - exfalso. apply (Hfirst' q); [lia | exact Ho].
        - exfalso. apply (Hfirst q'); [lia | exact Ho']. }
      f_equal. now apply IH.
Qed.

Lemma find_loop_spec (tolower : codepoint -> codepoint) (term : pystr) :
  term <> [] -> forall fuel idx w,
  length (get_all w) - idx < fuel ->
  exists w' rs,
    find_loop tolower fuel term idx w = Some w'
    /\ leftmost tolower term (get_all w) idx rs
    /\ (forall k, tag_at w' k = tag_at w k || covered rs k)
    /\ same_flags w w'.
Proof.
  intros Hp. induction fuel as [|fuel IH]; intros idx w Hf; [lia|].
  cbn [find_loop]. pose proof (search_spec tolower term idx w Hp) as Hs.
  destruct (search tolower term idx w) as [i|].
  - destruct Hs as (Hi & Ho & Hfirst).
    pose proof (occurs_at_bound _ _ _ _ Hp Ho) as Hb.
    assert (Hn : 0 < length term) by (destruct term; [congruence|simpl; lia]).
    rewrite length_get_all in Hb, Hf.
    assert (E : index_plus w i (length term) = i + length term).
    { unfold index_plus. lia. }
    rewrite E.
    destruct (IH (i + length term) (tag_add i (i + length term) w))
      as (w' & rs & R & L & T & F).
    { rewrite get_all_tag_add, length_get_all. lia. }
    rewrite get_all_tag_add in L.
    exists w', ((i, i + length term) :: rs). split; [exact R|].
    split; [now apply leftmost_hit|]. split.
    + intros k. rewrite T, tag_at_tag_add by exact Hb.
      cbn [covered existsb fst snd]. now rewrite orb_assoc.
    + destruct F as (F1 & F2 & F3 & F4).
      rewrite chars_tag_add in F1. repeat split; assumption.
  - exists w, []. split; [reflexivity|]. split; [now apply leftmost_done|].
    split; [intros k; cbn; now rewrite orb_false_r | repeat split].
Qed.

(** Case is ignored, and a search resumes after the occurrence: in
    ["aAa"] the term ["aa"] is found once. *)
Example find_ignores_case :
  tag_ranges <$> (text <$> _find ascii_tolower 10 (Some (str "abc"))
                             (editing (str "xABcxabC") (MkDisk ∅ ∅)))
  = Some [(1, 4); (5, 8)].
Proof. reflexivity. Qed.

Example find_does_not_overlap :
  tag_ranges <$> (text <$> _find ascii_tolower 10 (Some (str "aa"))
                             (editing (str "aAa") (MkDisk ∅ ∅)))
  = Some [(0, 2)].
Proof. reflexivity. Qed.

End Finding.

(** ** The flag at rest *)

Module Rest.
Import Unicode Disk Tk App Spec Widget Events.
Local Open Scope nat_scope.

Lemma quiet_ask p s : quiet s -> quiet (ask p s).
Proof. auto. Qed.

Lemma quiet_user_edit e s : quiet s -> quiet (user_edit e s).
Proof.
  intros [M C]. destruct e; split; auto; cbn [user_edit text set_text].
  - now apply Widget.insert_at_calm.
  - now apply Widget.delete_range_calm.
Qed.

Lemma quiet_new_file s : calm (text s) -> quiet (_new_file s).
Proof.
  intros C. split; [reflexivity|]. cbn. now apply Widget.delete_range_calm.
Qed.

Lemma quiet_open_file path s : quiet s -> quiet (state_of (_open_file path s)).
Proof.
  intros [M C]. unfold _open_file. destruct (chosen path); [|now split].
  cbn [disk ask]. destruct (open_r (disk s) path); [|now split].
  destruct (utf8_decode a).
  - split; [reflexivity|]. cbn.
    apply (Widget.insert_at_calm _ _ (delete_all (text s))).
    now apply Widget.delete_range_calm.
  - split; [exact M|]. cbn. now apply Widget.delete_range_calm.
Qed.

Lemma quiet_save_to path s : quiet s -> quiet (state_of (save_to path s)).
Proof.
  intros [M C]. unfold save_to. destruct (open_w (disk s) path); [|now split].
  cbn [text set_disk]. destruct (utf8_encode _); now split.
Qed.

Lemma quiet_save_file fuel :
  (forall answer s o, _save_file fuel answer s = Some o ->
     quiet s -> quiet (state_of o))
  /\ (forall answer s o, _save_file_as fuel answer s = Some o ->
        quiet s -> quiet (state_of o)).
Proof.
  induction fuel as [|fuel [IH1 IH2]]; [split; discriminate|].
  split; intros answer s o; cbn [_save_file _save_file_as].
  - destruct (filename s) as [name|].
    + destruct (chosen name).
      * intros [= <-]. apply quiet_save_to.
      * apply IH2.
    + apply IH2.
  - destruct (chosen answer).
    + intros R Q. now apply (IH1 _ _ _ R).
    + intros [= <-] Q. exact Q.
Qed.

Lemma find_loop_flags tolower term fuel : forall idx w w',
  find_loop tolower fuel term idx w = Some w' ->
  dirty w' = dirty w /\ queued w' = queued w.
Proof.
  induction fuel as [|fuel IH]; intros idx w w'; cbn [find_loop];
    [discriminate|].
  destruct (search tolower term idx w).
  - intros R. now destruct (IH _ _ _ R) as [-> ->].
  - now intros [= <-].
Qed.

Lemma quiet_find tolower fuel term s s' :
  _find tolower fuel term s = Some s' -> quiet s -> quiet s'.
Proof.
  unfold _find. destruct term as [[|c t]|]; try (intros [= <-]; auto).
  destruct (find_loop _ _ _ _ _) as [w|] eqn:E; [|discriminate].
  cbn. intros [= <-] [M C]. split; [exact M|].
  destruct (find_loop_flags _ _ _ _ _ _ E) as [Hd Hq].
  cbn [text set_text ask tag_remove_all dirty queued] in *.
  unfold calm in *. cbn [dirty queued] in *. rewrite Hd, Hq. exact C.
Qed.

Lemma quiet_replace find replace s : quiet s -> quiet (_replace find replace s).
Proof.
  intros [M C]. unfold _replace.
  destruct find as [[|c f]|], replace as [r|]; try now split.
  split; [exact M|]. cbn.
  apply (Widget.insert_at_calm _ _ (delete_all (text s))).
  now apply Widget.delete_range_calm.
Qed.

Lemma quiet_goto_line line s : quiet s -> quiet (_goto_line line s).
Proof.
  intros [M C]. unfold _goto_line.
  destruct line as [n|]; [destruct (n =? 0)%Z|]; now split.
Qed.

Lemma quiet_on_key tolower fuel k a s o :
  on_key tolower fuel k a s = Some o -> quiet s -> quiet (state_of o).
Proof.
  destruct k; cbn [on_key].
  - intros [= <-] [_ C]. now apply quiet_new_file.
  - intros [= <-]. apply quiet_open_file.
  - apply (quiet_save_file fuel).
  - apply (quiet_save_file fuel).
  - now intros [= <-].
  - destruct (_find _ _ _ _) as [s'|] eqn:E; [|discriminate].
    intros [= <-]. now apply (quiet_find _ _ _ _ _ E).
  - intros [= <-]. apply quiet_replace.
  - intros [= <-]. apply quiet_goto_line.
Qed.

Lemma rest_after_events fuel s s' :
  run_events fuel s = Some s' -> quiet s -> idle s' /\ modified s' = false.
Proof.
  intros R [M C]. destruct (Events.run_events_spec _ _ _ R) as (_ & Q & Z & P).
  destruct (queued (text s)) as [|n] eqn:E.
  - rewrite (Z eq_refl) in *. repeat split; auto.
    destruct (dirty (text s)) eqn:D; [|reflexivity].
    specialize (C D). lia.
  - destruct P as [M' D']; [lia|]. repeat split; auto.
Qed.

Lemma idle_quiet s : idle s -> modified s = false -> quiet s.
Proof. intros [Q D] M. split; [exact M|]. unfold calm. congruence. Qed.

(** X11.  Whenever the editor waits for the user, no event is pending and
    the flag is clear: the second delivery of [<<Modified>>] has undone
    what the first one set. *)
Theorem modified_false_at_rest (tolower : codepoint -> codepoint) (s : Editor) :
  reachable tolower s -> idle s /\ modified s = false.
Proof.
  induction 1 as [d|fuel act s s' _ [I M] _ T].
  - repeat split.
  - pose proof (idle_quiet s I M) as Q. destruct act as [e|k a]; cbn [turn] in T.
    + apply (rest_after_events _ _ _ T). now apply quiet_user_edit.
    + destruct (on_key tolower fuel k a s) as [o|] eqn:E; [|discriminate].
      cbn in T. apply (rest_after_events _ _ _ T).
      now apply (quiet_on_key _ _ _ _ _ _ E).
Qed.

End Rest.

(** ** The claims of the specification *)

Module Claims.
Import Unicode Disk Tk App Spec.
Import Codec Widget Events Files Replace Finding Rest.
Local Open Scope nat_scope.

(** C1 (the code falls short of the claim).  The claim wants [modified]
    to be true after an insertion or deletion.  In an editor at rest, an
    edit that changes the text sets the widget flag and queues
    [<<Modified>>]; the first call of [_on_modified] does set [modified],
    but its last line, [edit_modified(False)], changes the widget flag
    again and so queues a second [<<Modified>>]; the second call reads the
    cleared flag and sets [modified] back to false.  When the editor is at
    rest again the text is the edited one and [modified] is false. *)
Theorem edit_leaves_modified_false (s : Editor) (e : edit) :
  idle s -> changes e s = true ->
  exists s1 s2,
    deliver (user_edit e s) = Some s1 /\ modified s1 = true
    /\ run_events 2 (user_edit e s) = Some s2
    /\ modified s2 = false /\ idle s2
    /\ cells (text s2) = cells (text (user_edit e s)).
Proof.
  intros [Q D] C.
  assert (F : dirty (text (user_edit e s)) = true
              /\ queued (text (user_edit e s)) = 1).
  { destruct e as [p t|a b]; cbn [user_edit changes text set_text] in *.
    - destruct (insert_at_flags p t (text s)) as [-> ->].
      + destruct t; [discriminate | congruence].
      + now rewrite D, Q.
    - apply Nat.ltb_lt in C.
      destruct (delete_range_flags a b (text s) C) as [-> ->].
      now rewrite D, Q. }
  destruct F as [Fd Fq].
  destruct (fires_then_clears _ Fd Fq)
    as (s1 & s2 & D1 & M1 & R2 & M2 & I2 & Fr).
  exists s1, s2. repeat split; auto; apply I2 || apply Fr.
Qed.

Lemma edit_leaves_modified_false_witness :
  exists s1 s2,
    deliver (user_edit (Insert 0 (str "a")) (init (MkDisk ∅ ∅))) = Some s1
    /\ modified s1 = true
    /\ run_events 2 (user_edit (Insert 0 (str "a")) (init (MkDisk ∅ ∅)))
       = Some s2
    /\ modified s2 = false /\ idle s2
    /\ cells (text s2)
       = cells (text (user_edit (Insert 0 (str "a")) (init (MkDisk ∅ ∅)))).
Proof.
  apply edit_leaves_modified_false; [split; reflexivity | reflexivity].
Defined.

(** C2, as amended.  Open followed at once by Save, with or without the
    pending [<<Modified>>] events delivered in between, writes the text of
    the file with ["\r\n"] and ["\r"] turned into ["\n"], followed by the
    one newline that the widget keeps at its end; for a file without
    carriage return these are the original bytes followed by the byte
    0x0A. *)
Theorem open_then_save (answer path : string) (s : Editor)
    (bytes : list byte) (t : pystr) :
  chosen path = true ->
  files (disk s) !! path = Some (File bytes true true) ->
  utf8_decode bytes = Some t ->
  exists s1 s2 out,
    _open_file path s = Returns s1
    /\ _save_file 1 answer s1 = Some (Returns s2)
    /\ utf8_encode (universal_newlines t ++ [LF]) = Some out
    /\ contents (disk s2) path = Some out
    /\ (CR ∉ t -> out = bytes ++ [x0a]%byte)
    /\ (forall fuel s1', run_events fuel s1 = Some s1' ->
          exists s2', _save_file 1 answer s1' = Some (Returns s2')
                      /\ contents (disk s2') path = Some out).
Proof.
  intros C F D.
  assert (O : open_r (disk s) path = Ok bytes).
  { unfold open_r. now rewrite F. }
  destruct (open_file_ok path s bytes t C O D)
    as (s1 & R1 & Ch & Fn & M & Dk & _).
  assert (E : is_Some (utf8_encode (universal_newlines t ++ [LF]))).
  { apply encode_Forall, Forall_app. split.
    - apply (universal_newlines_Forall _ (length t));
        [eexists; reflexivity | lia |].
      apply encode_Forall. rewrite (decode_encode _ _ D). eexists; reflexivity.
    - repeat constructor. eexists; reflexivity. }
  destruct E as [out E].
  assert (S1 : forall s', disk s' = disk s -> filename s' = Some path ->
             chars (text s') = universal_newlines t ->
             exists s2, _save_file 1 answer s' = Some (Returns s2)
                        /\ contents (disk s2) path = Some out).
  { intros s' Hd Hf Hc.
    assert (W : exists d, open_w (disk s') path = Ok d).
    { rewrite Hd. unfold open_w. rewrite F. eexists; reflexivity. }
    destruct W as [d Hw].
    destruct (save_to_ok path s' d out Hw) as (s2 & R2 & C2 & _).
    { unfold get_all. now rewrite Hc. }
    exists s2. cbn [_save_file]. rewrite Hf, C.
    split; [now rewrite R2 | exact C2]. }
  destruct (S1 s1 Dk Fn Ch) as (s2 & R2 & C2).
  exists s1, s2, out. repeat split; auto.
  - intros NoCR. rewrite (universal_newlines_id _ NoCR) in E.
    rewrite (utf8_encode_app t [LF] bytes [x0a]%byte) in E.
    + now injection E.
    + now apply decode_encode.
    + reflexivity.
  - intros fuel s1' Rn.
    destruct (run_events_spec _ _ _ Rn)
      as ((Fc & _ & _ & Ff & Fd & _) & _).
    apply S1; try congruence. unfold chars in *. congruence.
Qed.

Lemma open_then_save_witness :
  exists s1 s2,
    _open_file "f" (init (one_file "f" ["h"; "i"]%byte)) = Returns s1
    /\ _save_file 1 "" s1 = Some (Returns s2)
    /\ contents (disk s2) "f" = Some ["h"; "i"; x0a]%byte.
Proof.
  destruct (open_then_save "" "f" (init (one_file "f" ["h"; "i"]%byte))
              ["h"; "i"]%byte (str "hi"))
    as (s1 & s2 & out & R1 & R2 & E & C & _);
    [reflexivity | reflexivity | reflexivity |].
  exists s1, s2. injection E as <-. repeat split; assumption.
Defined.

(** C2 as stated fails: the file ["hi"] is opened and saved at once, and
    what is on the disk afterwards is not what was there before. *)
Lemma open_then_save_is_not_identity :
  (o ← _save_file 1 "" (state_of (_open_file "f"
                                    (init (one_file "f" ["h"; "i"]%byte))));
   contents (disk (state_of o)) "f")
  <> contents (one_file "f" ["h"; "i"]%byte) "f".
Proof. vm_compute. discriminate. Qed.

(** C3 (the code falls short of the claim).  For a find-term without
    newline, the buffer after Replace is the literal global replacement
    of the buffer before it, followed by a line break that was not there:
    the code replaces in [get(1.0, END)], which ends with the widget's
    final newline, and inserts the result before that newline.  On
    ["foofoo baz foo"] the buffer becomes ["barbar baz bar\n"]. *)
Theorem replace_adds_newline (s : Editor) (c : codepoint) (f r : pystr) :
  LF ∉ c :: f ->
  (exists out,
     replaced (c :: f) r (chars (text s)) out
     /\ chars (text (_replace (Some (c :: f)) (Some r) s)) = out ++ [LF])
  /\ chars (text (_replace (Some (str "foo")) (Some (str "bar"))
                   (editing (str "foofoo baz foo") (disk s))))
     = str "barbar baz bar" ++ [LF].
Proof.
  intros HLF. split; [|reflexivity].
  exists (str_replace (c :: f) r (chars (text s))). split.
  - now apply str_replace_replaced.
  - rewrite chars_replace. unfold get_all. now apply str_replace_snoc.
Qed.

Lemma replace_adds_newline_witness :
  exists out,
    replaced (str "foo") (str "bar") (str "foofoo baz foo") out
    /\ chars (text (_replace (Some (str "foo")) (Some (str "bar"))
                      (editing (str "foofoo baz foo") (MkDisk ∅ ∅))))
       = out ++ [LF].
Proof.
  apply (replace_adds_newline
           (editing (str "foofoo baz foo") (MkDisk ∅ ∅)) 102%N (str "oo")
           (str "bar")).
  vm_compute. intros H.
  repeat (apply elem_of_cons in H as [H|H]; [discriminate|]).
  now apply elem_of_nil in H.
Defined.

(** C4.  For a non-empty term, with fuel for one search more than the
    text has characters, the loop of Find ends; the characters that carry
    the tag afterwards are exactly those of the occurrences found from
    left to right, case apart, each search resuming at the end of the
    occurrence before; nothing else of the editor changes.  Find("abc") on
    ["xabcxabc"] leaves the two tagged ranges [1,4) and [5,8). *)
Theorem find_highlights_occurrences (tolower : codepoint -> codepoint)
    (extra : nat) (s : Editor) (c : codepoint) (t : pystr) :
  (exists s' rs,
     _find tolower (S (length (get_all (text s))) + extra) (Some (c :: t)) s
     = Some s'
     /\ leftmost tolower (c :: t) (get_all (text s)) 0 rs
     /\ (forall k, tag_at (text s') k = covered rs k)
     /\ same_flags (text s) (text s')
     /\ filename s' = filename s /\ modified s' = modified s
     /\ disk s' = disk s)
  /\ (exists s',
        _find ascii_tolower 10 (Some (str "abc"))
              (editing (str "xabcxabc") (disk s)) = Some s'
        /\ tag_ranges (text s') = [(1, 4); (5, 8)]).
Proof.
  split.
  - unfold _find. cbn [text ask].
    destruct (find_loop_spec tolower (c :: t) ltac:(discriminate)
                (S (length (get_all (text s))) + extra) 0
                (tag_remove_all (text s))) as (w' & rs & R & L & T & F).
    { unfold get_all. rewrite chars_tag_remove_all. lia. }
    rewrite R. cbn [mbind option_bind].
    exists (set_text w' (ask (askstring "Find" "Find:") s)), rs.
    split; [reflexivity|]. cbn [text set_text filename modified disk ask].
    unfold get_all in L. rewrite chars_tag_remove_all in L.
    split; [exact L|]. split.
    + intros k. now rewrite T, tag_at_tag_remove_all.
    + destruct F as (F1 & F2 & F3 & F4). rewrite chars_tag_remove_all in F1.
      repeat split; assumption.
  - eexists. split; [vm_compute; reflexivity | reflexivity].
Qed.

(** C5, as amended.  A dismissed or empty prompt leaves the buffer, the
    path, the flag and the disk as they were: Open and Save-As on an empty
    path, Find on an absent or empty term, Replace on an absent or empty
    find-term or on an absent replace-term, Goto-line on an absent line or
    on line 0.  An empty replace-term is an answer, not a dismissal. *)
Theorem dismissed_prompt_is_noop (tolower : codepoint -> codepoint)
    (fuel : nat) (s : Editor) (find replace : option pystr) :
  (exists s', _open_file "" s = Returns s' /\ untouched s s')
  /\ (exists s', _save_file_as (S fuel) "" s = Some (Returns s')
                 /\ untouched s s')
  /\ (exists s', _find tolower fuel None s = Some s' /\ untouched s s')
  /\ (exists s', _find tolower fuel (Some []) s = Some s' /\ untouched s s')
  /\ untouched s (_replace None replace s)
  /\ untouched s (_replace (Some []) replace s)
  /\ untouched s (_replace find None s)
  /\ untouched s (_goto_line None s)
  /\ untouched s (_goto_line (Some 0%Z) s).
Proof.
  repeat split; try (eexists; split; [reflexivity | apply ask_untouched]);
    destruct find as [[|? ?]|]; reflexivity.
Qed.

(** C5 as stated fails: with ["a"] in the buffer, Replace is given the
    find-term ["a"] and an empty replace-term, and the buffer changes. *)
Lemma replace_by_nothing_edits :
  chars (text (_replace (Some (str "a")) (Some [])
                 (editing (str "a") (MkDisk ∅ ∅))))
  <> chars (text (editing (str "a") (MkDisk ∅ ∅))).
Proof. discriminate. Qed.

(** C6.  After New, whatever the state before, the buffer is empty, the
    path is unset and [modified] is false; this is still so once the
    [<<Modified>>] events that New queued have been delivered. *)
Theorem new_file_resets (s : Editor) :
  let s' := _new_file s in
  chars (text s') = [] /\ filename s' = None /\ modified s' = false
  /\ exists s'',
       run_events (S (queued (text s'))) s' = Some s''
       /\ chars (text s'') = [] /\ filename s'' = None
       /\ modified s'' = false.
Proof.
  cbv zeta.
  assert (C : chars (text (_new_file s)) = []) by apply chars_delete_all.
  repeat split; auto.
  destruct (run_events_total (S (queued (text (_new_file s))))
              (_new_file s)) as [s2 E].
  { destruct (dirty _); lia. }
  exists s2. split; [exact E|].
  destruct (run_events_spec _ _ _ E) as (Fr & _ & Z & P).
  destruct Fr as (Fc & _ & _ & Ff & _).
  unfold chars in *. rewrite Fc, Ff. repeat split; auto.
  destruct (queued (text (_new_file s))) eqn:Q.
  - now rewrite (Z eq_refl).
  - apply P. lia.
Qed.

(** C7.  When Save has a path to write to (the current one, or else the
    one chosen in the Save-As dialog) and the file can be written, the
    file holds the UTF-8 form of the whole of [get(1.0, END)] afterwards,
    no other file changes, [modified] is false and the path is the current
    one; with a known path no dialog is shown, without one Save is
    Save-As. *)
Theorem save_writes_buffer (answer target : string) (s : Editor)
    (d : Disk.disk) (bytes : list byte) :
  save_target answer s = Some target ->
  open_w (disk s) target = Ok d ->
  utf8_encode (get_all (text s)) = Some bytes ->
  exists s',
    _save_file 3 answer s = Some (Returns s')
    /\ contents (disk s') target = Some bytes
    /\ (forall other, other <> target ->
          files (disk s') !! other = files (disk s) !! other)
    /\ modified s' = false
    /\ filename s' = Some target
    /\ text s' = text s
    /\ (known (filename s) = true -> prompts s' = prompts s)
    /\ (known (filename s) = false ->
          _save_file 3 answer s = _save_file_as 2 answer s
          /\ prompts s' = prompts s ++ [asksaveasfilename]).
Proof.
  intros T O E. rewrite save_file_unfold, save_file_as_unfold, T.
  unfold save_target in T.
  destruct (known (filename s)) eqn:K.
  - destruct (save_to_ok target s d bytes O E)
      as (s' & -> & C & Oth & M & F & Tx & P).
    exists s'. repeat split; auto; try congruence.
  - destruct (chosen answer) eqn:A; [|discriminate]. injection T as ->.
    destruct (save_to_ok target
                (set_filename (Some target) (ask asksaveasfilename s))
                d bytes O E) as (s' & -> & C & Oth & M & F & Tx & P).
    exists s'. repeat split; auto; congruence.
Qed.

Lemma save_writes_buffer_witness :
  exists s',
    _save_file 3 "" (set_filename (Some "notes.txt")
                       (editing (str "hi") (MkDisk ∅ ∅)))
    = Some (Returns s')
    /\ contents (disk s') "notes.txt" = Some ["h"; "i"; x0a]%byte.
Proof.
  destruct (save_writes_buffer "" "notes.txt"
              (set_filename (Some "notes.txt")
                 (editing (str "hi") (MkDisk ∅ ∅)))
              (MkDisk {[ "notes.txt" := File [] true true ]} ∅)
              ["h"; "i"; x0a]%byte)
    as (s' & R & C & _); [reflexivity | reflexivity | reflexivity |].
  exists s'. split; assumption.
Defined.

(** C8.  Open raises exactly when a path was chosen and the file cannot be
    read or is not UTF-8; Save raises exactly when it has a path to write
    to and the file cannot be written or the text has no UTF-8 form.  The
    key bindings call the methods as they are, so the exception leaves
    the callback. *)
Theorem io_failures_propagate (tolower : codepoint -> codepoint)
    (fuel : nat) (a : answers) (s : Editor) :
  (raises (_open_file (path_answer a) s) = true
   <-> chosen (path_answer a) = true /\ read_fails (disk s) (path_answer a))
  /\ (exists o,
        _save_file 3 (path_answer a) s = Some o
        /\ (raises o = true
            <-> exists target,
                  save_target (path_answer a) s = Some target
                  /\ write_fails (disk s) target (get_all (text s))))
  /\ on_key tolower fuel Control_e a s = Some (_open_file (path_answer a) s)
  /\ on_key tolower fuel Control_s a s = _save_file fuel (path_answer a) s.
Proof.
  split; [|split; [|split; reflexivity]].
  - unfold _open_file, read_fails. cbn [disk ask].
    destruct (chosen (path_answer a)); cbn; [|intuition congruence].
    destruct (open_r (disk s) (path_answer a)) as [bytes|]; cbn; [|tauto].
    destruct (utf8_decode bytes); cbn; intuition congruence.
  - rewrite save_file_unfold. eexists. split; [reflexivity|].
    destruct (save_target (path_answer a) s) as [target|] eqn:T.
    + destruct (known (filename s)); rewrite save_to_raises;
        cbn [disk text set_filename ask];
        (split; [eauto | intros (? & [= <-] & ?); auto]).
    + cbn. split; [discriminate | intros (? & ? & _); discriminate].
Qed.

(** C9 (the code falls short of the claim).  With both prompts answered
    and a find-term that occurs nowhere in [get(1.0, END)], Replace still
    rewrites the buffer of an editor at rest: no character carries the
    tag afterwards, the widget flag is set and [<<Modified>>] is queued,
    and its first delivery sets [modified] (the second clears it, as in
    C1).  But the text is not unchanged: it has gained a line break. *)
Theorem replace_without_match (s : Editor) (c : codepoint) (f r : pystr) :
  idle s ->
  ~ occurs (c :: f) (get_all (text s)) ->
  let s' := _replace (Some (c :: f)) (Some r) s in
  chars (text s') = chars (text s) ++ [LF]
  /\ Forall (fun x => snd x = false) (cells (text s'))
  /\ dirty (text s') = true /\ queued (text s') = 1
  /\ exists s1 s2,
       deliver s' = Some s1 /\ modified s1 = true
       /\ run_events 2 s' = Some s2 /\ modified s2 = false
       /\ chars (text s2) = chars (text s) ++ [LF].
Proof.
  intros [Q D] Hno. cbv zeta.
  assert (C : chars (text (_replace (Some (c :: f)) (Some r) s))
              = chars (text s) ++ [LF]).
  { rewrite chars_replace. now apply str_replace_absent. }
  assert (T : cells (text (_replace (Some (c :: f)) (Some r) s))
              = map (fun x => (x, false))
                    (str_replace (c :: f) r (get_all (text s)))).
  { unfold _replace. cbn [text set_text ask]. apply cells_rewritten. }
  assert (F : dirty (text (_replace (Some (c :: f)) (Some r) s)) = true
              /\ queued (text (_replace (Some (c :: f)) (Some r) s)) = 1).
  { unfold _replace. cbn [text set_text ask].
    destruct (flags_rewritten (str_replace (c :: f) r (get_all (text s)))
                (text s)) as [-> ->].
    - rewrite str_replace_absent by (auto; discriminate).
      unfold get_all. now destruct (chars (text s)).
    - now rewrite D, Q. }
  destruct F as [Fd Fq].
  destruct (fires_then_clears _ Fd Fq)
    as (s1 & s2 & D1 & M1 & R2 & M2 & _ & Fr).
  repeat split; auto.
  - rewrite T. apply Forall_map. now apply Forall_true.
  - exists s1, s2. repeat split; auto.
    destruct Fr as (Fc & _). unfold chars in *. now rewrite Fc.
Qed.

Lemma replace_without_match_witness :
  let s' := _replace (Some (str "x")) (Some (str "y"))
              (editing (str "abc") (MkDisk ∅ ∅)) in
  chars (text s') = str "abc" ++ [LF] /\ dirty (text s') = true.
Proof.
  destruct (replace_without_match (editing (str "abc") (MkDisk ∅ ∅))
              120%N [] (str "y")) as (C & _ & D & _).
  - split; reflexivity.
  - intros (a & b & E). vm_compute in E.
    destruct a as [|? [|? [|? [|? [|? a]]]]]; discriminate.
  - split; assumption.
Defined.

(** C10.  Control-q stops the main loop whatever the state: no dialog is
    shown, nothing is written, and the buffer, the path and [modified]
    are left as they were, unsaved changes included. *)
Theorem quit_exits_at_once (tolower : codepoint -> codepoint) (fuel : nat)
    (a : answers) (s : Editor) :
  exists s',
    on_key tolower fuel Control_q a s = Some (Returns s')
    /\ running s' = false
    /\ prompts s' = prompts s /\ disk s' = disk s
    /\ text s' = text s /\ filename s' = filename s
    /\ modified s' = modified s.
Proof. exists (quit s). repeat split. Qed.

End Claims.

(** ** Further properties of the code *)

Module Extras.
Import Unicode Disk Tk App Display Spec.
Import Codec Widget Events Files Replace Finding Rest.
Local Open Scope nat_scope.

(** *** Open *)

Lemma universal_newlines_no_CR (n : nat) : forall t,
  length t <= n -> CR ∉ universal_newlines t.
Proof.
  induction n as [|n IH]; intros [|c t] Hlen; simpl in Hlen;
    cbn [universal_newlines]; try apply not_elem_of_nil; try lia.
  destruct (N.eqb_spec c CR) as [->|Hc].
  - apply not_elem_of_cons. split; [discriminate|].
    destruct t as [|d t]; [apply not_elem_of_nil|].
    destruct (d =? LF)%N; apply IH; simpl in *; lia.
  - apply not_elem_of_cons. split; [congruence | apply IH; lia].
Qed.

(** X1.  A successful Open replaces the whole buffer by the text of the
    file, whatever the buffer held: no carriage return is left in it, no
    character is highlighted, the cursor is at the end, the path is the
    chosen one, [modified] is false, the disk is as it was and the file
    chooser is the only dialog shown. *)
Theorem open_replaces_buffer (path : string) (s : Editor)
    (bytes : list byte) (t : pystr) :
  chosen path = true ->
  open_r (disk s) path = Ok bytes ->
  utf8_decode bytes = Some t ->
  exists s1,
    _open_file path s = Returns s1
    /\ chars (text s1) = universal_newlines t
    /\ (CR ∉ chars (text s1))
    /\ Forall (fun x => snd x = false) (cells (text s1))
    /\ insert_mark (text s1) = end_index (text s1)
    /\ filename s1 = Some path /\ modified s1 = false
    /\ disk s1 = disk s
    /\ prompts s1 = prompts s ++ [askopenfilename].
Proof.
  intros C O D.
  destruct (open_file_ok path s bytes t C O D)
    as (s1 & R & Ch & Fn & M & Dk & Im).
  exists s1. split; [exact R|]. split; [exact Ch|].
  split; [rewrite Ch; now apply (universal_newlines_no_CR (length t))|].
  unfold _open_file in R. rewrite C in R. cbn [disk ask] in R.
  rewrite O, D in R. injection R as <-.
  repeat split; auto.
  cbn [text set_text set_filename set_modified _update_status_bar
       mark_set_insert cells].
  rewrite cells_rewritten. apply Forall_map. now apply Forall_true.
Qed.

Lemma open_replaces_buffer_witness :
  exists s1,
    _open_file "f" (editing (str "old") (one_file "f" ["h"; "i"]%byte))
    = Returns s1
    /\ chars (text s1) = str "hi".
Proof.
  destruct (open_replaces_buffer "f"
              (editing (str "old") (one_file "f" ["h"; "i"]%byte))
              ["h"; "i"]%byte (str "hi"))
    as (s1 & R & Ch & _); [reflexivity | reflexivity | reflexivity |].
  exists s1. split; assumption.
Defined.

(** X2.  When the chosen file cannot be opened, Open raises and leaves the
    buffer, the path, the flag and the disk as they were.  When it can be
    opened and its bytes are not UTF-8, Open raises [UnicodeDecodeError]
    with the buffer already emptied: the text that was there is gone,
    while the path and the flag are still those of the old document. *)
Theorem open_failure_modes (path : string) (s : Editor) :
  chosen path = true ->
  (forall e, open_r (disk s) path = Raise e ->
     exists s1, _open_file path s = Raises e s1 /\ untouched s s1)
  /\ (forall bytes,
        open_r (disk s) path = Ok bytes -> utf8_decode bytes = None ->
        exists s1,
          _open_file path s = Raises UnicodeDecodeError s1
          /\ chars (text s1) = []
          /\ filename s1 = filename s /\ modified s1 = modified s
          /\ disk s1 = disk s).
Proof.
  intros C. split.
  - intros e O. unfold _open_file. rewrite C. cbn [disk ask]. rewrite O.
    eexists. split; [reflexivity | apply ask_untouched].
  - intros bytes O D. unfold _open_file. rewrite C. cbn [disk ask].
    rewrite O, D. eexists. split; [reflexivity|].
    cbn [text set_text filename modified disk ask].
    split; [apply chars_delete_all | repeat split].
Qed.

Lemma open_failure_modes_witness :
  exists s1,
    _open_file "f" (editing (str "old") (one_file "f" [xff]%byte))
    = Raises UnicodeDecodeError s1
    /\ chars (text s1) = [].
Proof.
  destruct (open_failure_modes "f"
              (editing (str "old") (one_file "f" [xff]%byte)) eq_refl)
    as [_ H].
  destruct (H [xff]%byte eq_refl eq_refl) as (s1 & R & Ch & _).
  exists s1. split; assumption.
Defined.

(** *** Save *)

Lemma save_to_returns (path : string) (s : Editor) (d : Disk.disk)
    (bytes : list byte) :
  open_w (disk s) path = Ok d ->
  utf8_encode (get_all (text s)) = Some bytes ->
  save_to path s = Returns (set_modified false (set_disk (write d path bytes) s)).
Proof. intros O E. unfold save_to. rewrite O. cbn [text set_disk]. now rewrite E. Qed.

(** The file Save leaves at [path]: the bytes written, readable as the
    file was (a new file is readable), and writable. *)
Lemma file_written (d d' : Disk.disk) (path : string) (bytes : list byte) :
  open_w d path = Ok d' ->
  files (write d' path bytes) !! path
  = Some (File bytes
               (match files d !! path with
                | Some f => readable f
                | None => true
                end) true)
  /\ sealed (write d' path bytes) = sealed d.
Proof.
  unfold open_w, write. cbn [files sealed].
  destruct (files d !! path) as [f|] eqn:E.
  - destruct (writable f); [|discriminate]. intros [= <-]. cbn [files sealed].
    now rewrite lookup_alter_eq, lookup_insert_eq.
  - destruct (decide _); [discriminate|]. intros [= <-]. cbn [files sealed].
    now rewrite lookup_alter_eq, lookup_insert_eq.
Qed.

Lemma save_target_chosen (answer target : string) (s : Editor) :
  save_target answer s = Some target -> chosen target = true.
Proof.
  unfold save_target, known. destruct (filename s) as [name|].
  - destruct (chosen name) eqn:C; [now intros [= <-]|].
    destruct (chosen answer) eqn:A; [now intros [= <-] | discriminate].
  - destruct (chosen answer) eqn:A; [now intros [= <-] | discriminate].
Qed.

(** The state in which Save comes to write, and what it has shown. *)
Lemma save_file_writes_from (answer target : string) (s : Editor) :
  save_target answer s = Some target ->
  exists s0,
    _save_file 3 answer s = Some (save_to target s0)
    /\ text s0 = text s /\ disk s0 = disk s /\ modified s0 = modified s
    /\ filename s0 = Some target
    /\ prompts s0
       = prompts s ++ (if known (filename s) then [] else [asksaveasfilename]).
Proof.
  intros T. rewrite save_file_unfold, T. unfold save_target in T.
  destruct (known (filename s)) eqn:K.
  - exists s. rewrite app_nil_r. repeat split; auto.
  - destruct (chosen answer); [|discriminate]. injection T as ->.
    eexists. split; [reflexivity | repeat split].
Qed.

(** X3.  When the file cannot be opened for writing, Save raises and
    writes nothing: the disk, the buffer and the flag are as they were.
    Reached through Save-As, the refused path has all the same become
    the current path. *)
Theorem save_refused (answer target : string) (s : Editor) (e : exn) :
  save_target answer s = Some target ->
  open_w (disk s) target = Raise e ->
  exists s',
    _save_file 3 answer s = Some (Raises e s')
    /\ disk s' = disk s /\ text s' = text s /\ modified s' = modified s
    /\ filename s' = Some target.
Proof.
  intros T O.
  destruct (save_file_writes_from answer target s T)
    as (s0 & -> & Tx & Dk & M & F & _).
  unfold save_to. rewrite Dk, O. exists s0. repeat split; auto.
Qed.

Lemma save_refused_witness :
  exists s',
    _save_file 3 "/ro/f" (editing (str "hi") (MkDisk ∅ {[ "/ro/f" ]}))
    = Some (Raises PermissionError s')
    /\ filename s' = Some "/ro/f"
    /\ disk s' = MkDisk ∅ {[ "/ro/f" ]}.
Proof.
  destruct (save_refused "/ro/f" "/ro/f"
              (editing (str "hi") (MkDisk ∅ {[ "/ro/f" ]})) PermissionError)
    as (s' & R & D & _ & _ & F); [reflexivity | reflexivity |].
  exists s'. repeat split; assumption.
Defined.

(** X4.  When the buffer has no UTF-8 form (it holds a surrogate), Save
    raises [UnicodeEncodeError] after ['w'] has truncated the file: the
    file is left empty, and [modified] and the buffer are as they were. *)
Theorem save_unencodable_truncates (answer target : string) (s : Editor)
    (d : Disk.disk) :
  save_target answer s = Some target ->
  open_w (disk s) target = Ok d ->
  utf8_encode (get_all (text s)) = None ->
  exists s',
    _save_file 3 answer s = Some (Raises UnicodeEncodeError s')
    /\ contents (disk s') target = Some []
    /\ text s' = text s /\ modified s' = modified s.
Proof.
  intros T O E.
  destruct (save_file_writes_from answer target s T)
    as (s0 & -> & Tx & Dk & M & F & _).
  unfold save_to. rewrite Dk, O. cbn [text set_disk]. rewrite Tx, E.
  eexists. split; [reflexivity|]. cbn [disk text modified set_disk].
  split; [|split; assumption].
  revert O. unfold open_w, contents.
  destruct (files (disk s) !! target) as [f|].
  - destruct (writable f); [|discriminate]. intros [= <-]. cbn [files].
    now rewrite lookup_insert_eq.
  - destruct (decide _); [discriminate|]. intros [= <-]. cbn [files].
    now rewrite lookup_insert_eq.
Qed.

Lemma save_unencodable_truncates_witness :
  exists s',
    _save_file 3 "" (set_filename (Some "f")
                       (editing [0xD800%N] (one_file "f" ["h"; "i"]%byte)))
    = Some (Raises UnicodeEncodeError s')
    /\ contents (disk s') "f" = Some [].
Proof.
  destruct (save_unencodable_truncates "" "f"
              (set_filename (Some "f")
                 (editing [0xD800%N] (one_file "f" ["h"; "i"]%byte)))
              (MkDisk {[ "f" := File [] true true ]} ∅))
    as (s' & R & C & _); [reflexivity | | reflexivity |].
  - unfold open_w, one_file. cbn [disk editing set_filename files sealed].
    rewrite lookup_singleton_eq. cbn [writable readable].
    now rewrite insert_singleton_eq.
  - exists s'. split; assumption.
Defined.

(** X5.  What Save has written, Open reads back: after a Save that
    succeeds on a file that may be read, opening the same path gives the
    buffer it had, with the newline that Save wrote after it now part of
    the text (and with any carriage return turned into a newline). *)
Theorem save_then_open (answer target : string) (s : Editor)
    (d : Disk.disk) (bytes : list byte) :
  save_target answer s = Some target ->
  open_w (disk s) target = Ok d ->
  utf8_encode (get_all (text s)) = Some bytes ->
  (forall f, files (disk s) !! target = Some f -> readable f = true) ->
  exists s1 s2,
    _save_file 3 answer s = Some (Returns s1)
    /\ _open_file target s1 = Returns s2
    /\ chars (text s2) = universal_newlines (chars (text s) ++ [LF])
    /\ (CR ∉ chars (text s) -> chars (text s2) = chars (text s) ++ [LF]).
Proof.
  intros T O E Hr.
  destruct (save_file_writes_from answer target s T)
    as (s0 & -> & Tx & Dk & M & F & _).
  rewrite <- Dk in O. rewrite <- Tx in E.
  rewrite (save_to_returns target s0 d bytes O E).
  destruct (file_written _ _ target bytes O) as [L _].
  assert (Or : open_r (write d target bytes) target = Ok bytes).
  { unfold open_r. rewrite L. cbn [readable data].
    rewrite Dk. destruct (files (disk s) !! target) as [f|] eqn:Ef;
      [now rewrite (Hr f eq_refl) | reflexivity]. }
  destruct (open_file_ok target
              (set_modified false (set_disk (write d target bytes) s0))
              bytes (get_all (text s0)))
    as (s2 & R2 & Ch & _).
  { now apply (save_target_chosen answer target s). }
  { exact Or. }
  { now apply encode_decode. }
  eexists; exists s2. split; [reflexivity|]. split; [exact R2|].
  rewrite Ch, Tx. unfold get_all. split; [reflexivity|].
  intros NoCR. apply universal_newlines_id.
  intros H. apply elem_of_app in H as [H|H]; [now apply NoCR|].
  apply list_elem_of_singleton in H. discriminate.
Qed.

Lemma save_then_open_witness :
  exists s1 s2,
    _save_file 3 "f" (editing (str "hi") (MkDisk ∅ ∅)) = Some (Returns s1)
    /\ _open_file "f" s1 = Returns s2
    /\ chars (text s2) = str "hi" ++ [LF].
Proof.
  destruct (save_then_open "f" "f" (editing (str "hi") (MkDisk ∅ ∅))
              (MkDisk {[ "f" := File [] true true ]} ∅)
              ["h"; "i"; x0a]%byte)
    as (s1 & s2 & R1 & R2 & C & _);
    [reflexivity | reflexivity | reflexivity | intros f [=] |].
  exists s1, s2. repeat split; assumption.
Defined.

Lemma write_again (d d' d'' : Disk.disk) (path : string) (bytes : list byte) :
  open_w d path = Ok d' ->
  open_w (write d' path bytes) path = Ok d'' ->
  write d'' path bytes = write d' path bytes.
Proof.
  intros O O'. destruct (file_written d d' path bytes O) as [L S].
  revert O'. unfold open_w at 1. rewrite L. cbn [writable readable].
  intros [= <-]. unfold write in *. cbn [files sealed] in *.
  f_equal. apply map_eq. intros i. destruct (decide (i = path)) as [->|Hne].
  - rewrite lookup_alter_eq, lookup_insert_eq, L. reflexivity.
  - now rewrite lookup_alter_ne, lookup_insert_ne by congruence.
Qed.

(** X6.  Save is idempotent: after a Save that has written the buffer, a
    second Save shows no dialog and leaves the editor and the disk
    exactly as the first one left them. *)
Theorem save_twice (answer answer' target : string) (s s1 : Editor) :
  save_target answer s = Some target ->
  _save_file 3 answer s = Some (Returns s1) ->
  _save_file 3 answer' s1 = Some (Returns s1).
Proof.
  intros T R.
  destruct (save_file_writes_from answer target s T)
    as (s0 & E0 & Tx & Dk & M & F & _).
  rewrite E0 in R. injection R as R.
  pose proof (save_target_chosen _ _ _ T) as C.
  unfold save_to in R.
  destruct (open_w (disk s0) target) as [d|] eqn:O; [|discriminate].
  cbn [text set_disk] in R.
  destruct (utf8_encode (get_all (text s0))) as [bytes|] eqn:E;
    [|discriminate].
  injection R as R.
  destruct (file_written _ _ target bytes O) as [L _].
  assert (O' : exists d2, open_w (disk s1) target = Ok d2).
  { rewrite <- R. cbn [disk set_modified set_disk _update_status_bar].
    unfold open_w. rewrite L. eexists; reflexivity. }
  destruct O' as [d2 O'].
  assert (K : known (filename s1) = true).
  { rewrite <- R. cbn [filename set_modified set_disk _update_status_bar].
    rewrite F. exact C. }
  assert (F1 : filename s1 = Some target).
  { rewrite <- R. exact F. }
  assert (E1 : utf8_encode (get_all (text s1)) = Some bytes).
  { rewrite <- R. exact E. }
  rewrite save_file_unfold. unfold save_target. rewrite K, F1.
  rewrite (save_to_returns target s1 d2 bytes O' E1).
  do 2 f_equal. rewrite <- R in O' |- *.
  cbn [disk set_modified set_disk _update_status_bar] in O'.
  rewrite (write_again _ _ _ _ _ O O'). reflexivity.
Qed.

Lemma save_twice_witness :
  exists s1,
    _save_file 3 "f" (editing (str "hi") (MkDisk ∅ ∅)) = Some (Returns s1)
    /\ _save_file 3 "" s1 = Some (Returns s1).
Proof.
  assert (R : exists s1, _save_file 3 "f" (editing (str "hi") (MkDisk ∅ ∅))
                         = Some (Returns s1)).
  { rewrite save_file_unfold. eexists. reflexivity. }
  destruct R as [s1 R]. exists s1. split; [exact R|].
  exact (save_twice "f" "" "f" (editing (str "hi") (MkDisk ∅ ∅)) s1
           eq_refl R).
Defined.

(** X7.  Open of a file that is not UTF-8 leaves an empty buffer under the
    old path; a Save after it overwrites the document that was open with
    a single newline. *)
Theorem failed_open_then_save (answer path old : string) (s : Editor)
    (bytes : list byte) (d : Disk.disk) :
  filename s = Some old -> chosen old = true -> chosen path = true ->
  open_r (disk s) path = Ok bytes -> utf8_decode bytes = None ->
  open_w (disk s) old = Ok d ->
  exists s1 s2,
    _open_file path s = Raises UnicodeDecodeError s1
    /\ _save_file 1 answer s1 = Some (Returns s2)
    /\ contents (disk s2) old = Some [x0a]%byte.
Proof.
  intros F Co Cp O D W.
  destruct (open_failure_modes path s Cp) as [_ H].
  destruct (H bytes O D) as (s1 & R & Ch & F1 & _ & D1).
  exists s1. rewrite <- D1 in W.
  destruct (save_to_ok old s1 d [x0a]%byte W) as (s2 & R2 & C2 & _).
  { unfold get_all. now rewrite Ch. }
  exists s2. split; [exact R|]. split; [|exact C2].
  cbn [_save_file]. now rewrite F1, F, Co, R2.
Qed.

Lemma failed_open_then_save_witness :
  exists s1 s2,
    _open_file "bad"
      (set_filename (Some "doc")
         (editing (str "text")
            (MkDisk {[ "bad" := File [xff]%byte true true;
                       "doc" := File ["t"; "e"; "x"; "t"]%byte true true ]}
                    ∅)))
    = Raises UnicodeDecodeError s1
    /\ _save_file 1 "" s1 = Some (Returns s2)
    /\ contents (disk s2) "doc" = Some [x0a]%byte.
Proof.
  eapply (failed_open_then_save "" "bad" "doc" _ [xff]%byte);
    [reflexivity | reflexivity | reflexivity | | reflexivity |].
  - vm_compute. reflexivity.
  - vm_compute. reflexivity.
Defined.

(** X8.  After New the path is unset, so Save asks for one; on a chosen
    path that can be written, the file holds the single byte 0x0A, the
    widget's final newline, and the path becomes the current one. *)
Theorem new_then_save (answer : string) (s : Editor) (d : Disk.disk) :
  chosen answer = true ->
  open_w (disk s) answer = Ok d ->
  exists s',
    _save_file 3 answer (_new_file s) = Some (Returns s')
    /\ contents (disk s') answer = Some [x0a]%byte
    /\ filename s' = Some answer
    /\ prompts s' = prompts s ++ [asksaveasfilename].
Proof.
  intros C O.
  assert (T : save_target answer (_new_file s) = Some answer).
  { unfold save_target. cbn. now rewrite C. }
  destruct (save_file_writes_from answer answer (_new_file s) T)
    as (s0 & -> & Tx & Dk & _ & F & P).
  destruct (save_to_ok answer s0 d [x0a]%byte) as (s' & -> & C' & _ & _ & F' & _ & P').
  { now rewrite Dk. }
  { rewrite Tx. unfold get_all.
    change (text (_new_file s)) with (delete_all (text s)).
    now rewrite chars_delete_all. }
  cbn in P. exists s'. repeat split; auto; congruence.
Qed.

Lemma new_then_save_witness :
  exists s',
    _save_file 3 "f" (_new_file (editing (str "old") (MkDisk ∅ ∅)))
    = Some (Returns s')
    /\ contents (disk s') "f" = Some [x0a]%byte.
Proof.
  destruct (new_then_save "f" (editing (str "old") (MkDisk ∅ ∅))
              (MkDisk {[ "f" := File [] true true ]} ∅))
    as (s' & R & C & _); [reflexivity | reflexivity |].
  exists s'. split; assumption.
Defined.

(** *** What the callbacks leave alone *)

Lemma find_loop_cells tolower term fuel : forall idx w w',
  find_loop tolower fuel term idx w = Some w' -> chars w' = chars w.
Proof.
  induction fuel as [|fuel IH]; intros idx w w'; cbn [find_loop];
    [discriminate|].
  destruct (search tolower term idx w).
  - intros R. rewrite (IH _ _ _ R). apply chars_tag_add.
  - now intros [= <-].
Qed.

Lemma find_frame tolower fuel term s s' :
  _find tolower fuel term s = Some s' ->
  disk s' = disk s /\ filename s' = filename s /\ running s' = running s
  /\ modified s' = modified s /\ chars (text s') = chars (text s).
Proof.
  unfold _find. destruct term as [[|c t]|]; try (intros [= <-]; now auto).
  destruct (find_loop _ _ _ _ _) as [w|] eqn:E; [|discriminate].
  cbn. intros [= <-]. repeat split.
  cbn [text set_text]. rewrite (find_loop_cells _ _ _ _ _ _ E).
  apply chars_tag_remove_all.
Qed.

Lemma save_to_frame path s :
  filename (state_of (save_to path s)) = filename s
  /\ running (state_of (save_to path s)) = running s
  /\ text (state_of (save_to path s)) = text s.
Proof.
  unfold save_to. destruct (open_w (disk s) path); [|now auto].
  cbn [text set_disk]. destruct (utf8_encode _); now auto.
Qed.

Lemma save_file_running fuel :
  (forall answer s o, _save_file fuel answer s = Some o ->
     running (state_of o) = running s /\ text (state_of o) = text s)
  /\ (forall answer s o, _save_file_as fuel answer s = Some o ->
        running (state_of o) = running s /\ text (state_of o) = text s).
Proof.
  induction fuel as [|fuel [IH1 IH2]]; [split; discriminate|].
  split; intros answer s o; cbn [_save_file _save_file_as].
  - destruct (filename s) as [name|]; [destruct (chosen name)|];
      try apply IH2.
    intros [= <-]. destruct (save_to_frame name s) as (_ & R & T). now split.
  - destruct (chosen answer).
    + intros R. now destruct (IH1 _ _ _ R).
    + now intros [= <-].
Qed.

(** X9.  Of the eight key chords only Control-s and Control-S can change
    the disk, only Control-q stops the main loop, only Control-n,
    Control-e, Control-s and Control-S can change the path, and Find,
    Goto-line, Save, Save-As and Quit never change the characters of the
    buffer, whether the callback returns or raises. *)
Theorem key_frame (tolower : codepoint -> codepoint) (fuel : nat) (k : key)
    (a : answers) (s : Editor) (o : outcome) :
  on_key tolower fuel k a s = Some o ->
  (saves k = false -> disk (state_of o) = disk s)
  /\ (k <> Control_q -> running (state_of o) = running s)
  /\ (renames k = false -> filename (state_of o) = filename s)
  /\ (k <> Control_n -> k <> Control_e -> k <> Control_h ->
      chars (text (state_of o)) = chars (text s)).
Proof.
  destruct k; cbn [on_key saves renames].
  - intros [= <-]. repeat split; congruence.
  - intros [= <-]. unfold _open_file. cbn [disk ask].
    destruct (chosen (path_answer a)); [|repeat split; congruence].
    destruct (open_r (disk s) (path_answer a)); [|repeat split; congruence].
    destruct (utf8_decode _); repeat split; congruence.
  - intros R. destruct (proj1 (save_file_running fuel) _ _ _ R) as [Rn T].
    repeat split; intros; try congruence; try discriminate.
  - intros R. destruct (proj2 (save_file_running fuel) _ _ _ R) as [Rn T].
    repeat split; intros; try congruence; try discriminate.
  - intros [= <-]. repeat split; congruence.
  - destruct (_find _ _ _ _) as [s'|] eqn:E; [|discriminate].
    intros [= <-]. destruct (find_frame _ _ _ _ _ E) as (D & F & Rn & _ & C).
    repeat split; auto.
  - intros [= <-]. unfold _replace.
    destruct (find_answer a) as [[|c f]|], (replace_answer a);
      repeat split; congruence.
  - intros [= <-]. unfold _goto_line.
    destruct (line_answer a) as [n|]; [destruct (n =? 0)%Z|];
      repeat split; congruence.
Qed.

Lemma key_frame_witness :
  disk (_replace (Some (str "a")) (Some (str "b"))
          (editing (str "a") (one_file "f" ["a"]%byte)))
  = one_file "f" ["a"]%byte.
Proof.
  exact (proj1 (key_frame ascii_tolower 0 Control_h
                  (MkAnswers "" (Some (str "a")) (Some (str "b")) None)
                  (editing (str "a") (one_file "f" ["a"]%byte)) _ eq_refl)
               eq_refl).
Defined.

(** *** The event loop *)

(** X10.  The handler's own [edit_modified(False)] cannot start an
    endless chain of [<<Modified>>] events: from any state, one delivery
    more than there are events in the queue empties it, and the
    deliveries change neither the text, nor the highlights, the cursor,
    the path, the disk or the dialogs shown. *)
Theorem events_settle (s : Editor) :
  exists s',
    run_events (S (queued (text s))) s = Some s'
    /\ queued (text s') = 0
    /\ same_document s s'.
Proof.
  destruct (run_events_total (S (queued (text s))) s) as [s' R].
  { destruct (dirty (text s)); lia. }
  exists s'. destruct (run_events_spec _ _ _ R) as (F & Q & _). auto.
Qed.

(** The invariant of X11 ([modified_false_at_rest]) after the user has
    typed a character. *)
Lemma modified_false_at_rest_witness :
  exists s',
    turn ascii_tolower 2 (Edit (Insert 0 (str "a"))) (init (MkDisk ∅ ∅))
    = Some s'
    /\ chars (text s') = str "a"
    /\ modified s' = false.
Proof.
  eexists. split; [cbv; reflexivity|]. split; [reflexivity|].
  refine (proj2 (modified_false_at_rest ascii_tolower _ _)).
  eapply (reach_turn ascii_tolower 2 (Edit (Insert 0 (str "a")))
            (init (MkDisk ∅ ∅)));
    [apply reach_init | reflexivity | cbv; reflexivity].
Defined.

(** *** The cursor and the status bar *)

Lemma line_start_le (n : nat) (t : pystr) : line_start n t <= length t.
Proof.
  revert n. induction t as [|c t IH]; intros [|n]; cbn [line_start length];
    try lia.
  destruct (c =? LF)%N; [specialize (IH n) | specialize (IH (S n))]; lia.
Qed.

Lemma line_start_past (t : pystr) : forall n,
  newlines t < n -> line_start n t = length t.
Proof.
  induction t as [|c t IH]; intros [|n] H; cbn [line_start length newlines] in *;
    try lia.
  destruct (c =? LF)%N; f_equal; apply IH; lia.
Qed.

Lemma row_col_line_start (t : pystr) : forall n row col,
  n <= newlines t ->
  row_col t (line_start n t) row col
  = (row + n, if n =? 0 then col else 0).
Proof.
  induction t as [|c t IH]; intros [|n] row col H;
    cbn [line_start newlines row_col Nat.eqb] in *;
    try (f_equal; lia).
  destruct (c =? LF)%N.
  - rewrite IH by lia. destruct n; cbn [Nat.eqb]; f_equal; lia.
  - rewrite IH by lia. cbn [Nat.eqb]. f_equal; lia.
Qed.

Lemma last_line_all (t : pystr) : newlines t = 0 -> last_line t = t.
Proof. destruct t; cbn [last_line]; [reflexivity|]. now intros ->. Qed.

Lemma row_col_end (t : pystr) : forall row col,
  row_col t (length t) row col
  = (row + newlines t,
     if newlines t =? 0 then col + length t else length (last_line t)).
Proof.
  induction t as [|c t IH]; intros row col.
  - cbn. f_equal; lia.
  - cbn [length row_col newlines last_line].
    destruct (c =? LF)%N eqn:E; rewrite IH.
    + cbn [Nat.eqb Nat.ltb Nat.leb].
      destruct (newlines t) eqn:Nl; cbn [Nat.eqb];
        [rewrite last_line_all by exact Nl|]; f_equal; lia.
    + destruct (newlines t) eqn:Nl; cbn [Nat.eqb Nat.ltb Nat.leb];
        f_equal; lia.
Qed.

Lemma index_of_end (w : Text) :
  index_of w (end_index w)
  = (line_count w, length (last_line (chars w))).
Proof.
  unfold index_of, end_index, line_count.
  replace (length (cells w)) with (length (chars w))
    by (unfold chars; apply length_map).
  rewrite row_col_end. destruct (newlines (chars w)) eqn:Nl; cbn [Nat.eqb].
  - now rewrite last_line_all.
  - reflexivity.
Qed.

(** X12.  Goto-line with a line from 1 on moves the cursor and changes
    nothing else, and queues no event.  When the buffer has that many
    lines the cursor is at the start of the line, index [line.0], and a
    refresh of the status bar would read [Ln line, Col 1]; past the last
    line the cursor goes to the end of the buffer. *)
Theorem goto_line_moves_cursor (line : Z) (s : Editor) :
  (1 <= line)%Z ->
  let s' := _goto_line (Some line) s in
  ((line <= Z.of_nat (line_count (text s)))%Z ->
     index_of (text s') (insert_mark (text s')) = (Z.to_nat line, 0)
     /\ status_text s'
        = (status_name s ++ "    Ln " ++ pretty (Z.to_nat line) ++ ", Col 1")%string)
  /\ ((Z.of_nat (line_count (text s)) < line)%Z ->
        insert_mark (text s') = end_index (text s'))
  /\ cells (text s') = cells (text s)
  /\ dirty (text s') = dirty (text s) /\ queued (text s') = queued (text s)
  /\ filename s' = filename s /\ modified s' = modified s
  /\ disk s' = disk s.
Proof.
  intros H1. cbv zeta. unfold _goto_line.
  destruct (Z.eqb_spec line 0) as [->|_]; [lia|].
  cbn [text set_text ask filename modified disk mark_set_insert cells dirty
       queued insert_mark].
  assert (Hm : Nat.min (line_index line (text s)) (end_index (text s))
               = line_start (Z.to_nat (line - 1)) (chars (text s))).
  { unfold line_index, end_index.
    pose proof (line_start_le (Z.to_nat (line - 1)) (chars (text s))) as L.
    unfold chars in L at 2. rewrite length_map in L. lia. }
  split; [|split; [|repeat split]].
  - intros H2. unfold line_count in H2.
    assert (I : index_of
                  (mark_set_insert (line_index line (text s)) (text s))
                  (Nat.min (line_index line (text s)) (end_index (text s)))
                = (Z.to_nat line, 0)).
    { rewrite Hm. unfold index_of. cbn [chars mark_set_insert cells].
      fold (chars (text s)). rewrite row_col_line_start by lia.
      destruct (Z.to_nat (line - 1) =? 0) eqn:E; f_equal; lia. }
    split; [exact I|].
    unfold status_text. cbn [text set_text insert_mark mark_set_insert].
    rewrite I. reflexivity.
  - intros H2. unfold line_count in H2. rewrite Hm.
    rewrite line_start_past by lia. unfold end_index, chars.
    now rewrite length_map.
Qed.

Lemma goto_line_moves_cursor_witness :
  let s' := _goto_line (Some 3%Z)
              (editing (str "a" ++ [LF] ++ str "b" ++ [LF] ++ str "c" ++ [LF]
                          ++ str "d" ++ [LF] ++ str "e")
                       (MkDisk ∅ ∅)) in
  index_of (text s') (insert_mark (text s')) = (3, 0).
Proof.
  refine (proj1 (proj1 (goto_line_moves_cursor 3%Z
                          (editing (str "a" ++ [LF] ++ str "b" ++ [LF]
                                      ++ str "c" ++ [LF] ++ str "d" ++ [LF]
                                      ++ str "e")
                                   (MkDisk ∅ ∅)) _) _)).
  - lia.
  - vm_compute. discriminate.
Defined.

Lemma insert_mark_set_dirty (w : Text) :
  insert_mark (set_dirty w) = insert_mark w.
Proof. unfold set_dirty. now destruct (dirty w). Qed.

Lemma insert_mark_delete_all (w : Text) :
  insert_mark w <= end_index w -> insert_mark (delete_all w) = 0.
Proof.
  intros H. unfold delete_all, delete_range.
  rewrite Nat.min_r by lia.
  destruct (Nat.ltb_spec 0 (end_index w)) as [L|L]; [|lia].
  rewrite insert_mark_set_dirty. cbn [insert_mark].
  destruct (Nat.leb_spec (insert_mark w) 0); [lia|].
  destruct (Nat.ltb_spec (insert_mark w) (end_index w)); lia.
Qed.

(** X13.  After New the status bar reads [Untitled    Ln 1, Col 1],
    whatever document was open and wherever its cursor was. *)
Theorem status_after_new (s : Editor) :
  insert_mark (text s) <= end_index (text s) ->
  status_text (_new_file s) = "Untitled    Ln 1, Col 1"%string.
Proof.
  intros H. unfold status_text, status_name, index_of.
  cbn [_new_file _update_status_bar text set_text set_modified set_filename
       filename modified].
  rewrite chars_delete_all, insert_mark_delete_all by exact H. reflexivity.
Qed.

Lemma status_after_new_witness :
  status_text (_new_file (set_filename (Some "/tmp/notes.txt")
                            (set_modified true
                               (editing (str "abc") (MkDisk ∅ ∅)))))
  = "Untitled    Ln 1, Col 1"%string.
Proof. apply status_after_new. vm_compute. lia. Defined.

(** X14.  After a successful Open the status bar shows the file name
    without its directories and without the mark of a modified buffer,
    the number of the last line and the column after its last
    character; delivering the pending events does not change it. *)
Theorem status_after_open (path : string) (s : Editor)
    (bytes : list byte) (t : pystr) :
  chosen path = true ->
  open_r (disk s) path = Ok bytes ->
  utf8_decode bytes = Some t ->
  exists s1,
    _open_file path s = Returns s1
    /\ status_text s1
       = (basename path ++ "    Ln "
          ++ pretty (S (newlines (universal_newlines t)))
          ++ ", Col "
          ++ pretty (length (last_line (universal_newlines t)) + 1))%string
    /\ forall fuel s2, run_events fuel s1 = Some s2 ->
         status_text s2 = status_text s1.
Proof.
  intros C O D.
  destruct (open_file_ok path s bytes t C O D)
    as (s1 & R & Ch & Fn & M & Dk & Im).
  exists s1. split; [exact R|]. split.
  - unfold status_text, status_name. rewrite Im, index_of_end, Fn, M, C.
    unfold line_count. now rewrite Ch.
  - intros fuel s2 R2.
    destruct (run_events_spec _ _ _ R2) as ((Fc & _ & Fi & Ff & _) & _ & Z & P).
    assert (M2 : modified s2 = false).
    { destruct (queued (text s1)) eqn:Q; [now rewrite (Z eq_refl)|].
      apply P. lia. }
    unfold status_text, status_name, index_of, chars.
    now rewrite Fc, Fi, Ff, M2, M.
Qed.

Lemma status_after_open_witness :
  exists s1,
    _open_file "/tmp/notes.txt"
      (init (one_file "/tmp/notes.txt" ["h"; "i"; x0a; "y"; "o"; "u"]%byte))
    = Returns s1
    /\ status_text s1 = "notes.txt    Ln 2, Col 4"%string.
Proof.
  destruct (status_after_open "/tmp/notes.txt"
              (init (one_file "/tmp/notes.txt"
                       ["h"; "i"; x0a; "y"; "o"; "u"]%byte))
              ["h"; "i"; x0a; "y"; "o"; "u"]%byte
              (str "hi" ++ [LF] ++ str "you"))
    as (s1 & R & St & _); [reflexivity | reflexivity | reflexivity |].
  exists s1. split; [exact R | exact St].
Defined.

(** *** Find and Replace *)

Lemma find_loop_sound (tolower : codepoint -> codepoint) (term : pystr) :
  term <> [] -> forall fuel idx w w',
  find_loop tolower fuel term idx w = Some w' ->
  exists rs,
    leftmost tolower term (get_all w) idx rs
    /\ forall k, tag_at w' k = tag_at w k || covered rs k.
Proof.
  intros Hp. induction fuel as [|fuel IH]; intros idx w w';
    cbn [find_loop]; [discriminate|].
  pose proof (search_spec tolower term idx w Hp) as Hs.
  destruct (search tolower term idx w) as [i|].
  - destruct Hs as (Hi & Ho & Hfirst).
    pose proof (occurs_at_bound _ _ _ _ Hp Ho) as Hb.
    rewrite length_get_all in Hb.
    assert (E : index_plus w i (length term) = i + length term).
    { unfold index_plus. lia. }
    rewrite E. intros R. destruct (IH _ _ _ R) as (rs & L & T).
    rewrite get_all_tag_add in L.
    exists ((i, i + length term) :: rs). split; [now apply leftmost_hit|].
    intros k. rewrite T, tag_at_tag_add by exact Hb.
    cbn [covered existsb fst snd]. now rewrite orb_assoc.
  - intros [= <-]. exists []. split; [now apply leftmost_done|].
    intros k. cbn. now rewrite orb_false_r.
Qed.

(** X15.  The highlights Find leaves depend on the text and the term
    alone: the highlights of an earlier Find are dropped, and two buffers
    with the same characters get the same highlights.  In particular a
    second Find for the same term changes no highlight. *)
Theorem find_depends_on_text (tolower : codepoint -> codepoint)
    (fuel1 fuel2 : nat) (c : codepoint) (t : pystr)
    (s1 s2 s1' s2' : Editor) :
  chars (text s1) = chars (text s2) ->
  _find tolower fuel1 (Some (c :: t)) s1 = Some s1' ->
  _find tolower fuel2 (Some (c :: t)) s2 = Some s2' ->
  forall k, tag_at (text s1') k = tag_at (text s2') k.
Proof.
  intros Hc R1 R2 k. unfold _find in R1, R2. cbn [text ask] in R1, R2.
  destruct (find_loop tolower fuel1 _ _ _) as [w1|] eqn:E1; [|discriminate].
  destruct (find_loop tolower fuel2 _ _ _) as [w2|] eqn:E2; [|discriminate].
  cbn in R1, R2. injection R1 as <-. injection R2 as <-.
  cbn [text set_text].
  destruct (find_loop_sound tolower (c :: t) ltac:(discriminate) _ _ _ _ E1)
    as (rs1 & L1 & T1).
  destruct (find_loop_sound tolower (c :: t) ltac:(discriminate) _ _ _ _ E2)
    as (rs2 & L2 & T2).
  unfold get_all in L1, L2. rewrite chars_tag_remove_all in L1, L2.
  rewrite Hc in L1. rewrite (leftmost_unique _ _ _ _ _ _ L1 L2) in T1.
  now rewrite T1, T2, !tag_at_tag_remove_all.
Qed.

Lemma find_depends_on_text_witness :
  match _find ascii_tolower 10 (Some (str "ab"))
              (editing (str "xabAB") (MkDisk ∅ ∅)) with
  | Some s' =>
    match _find ascii_tolower 10 (Some (str "ab")) s' with
    | Some s'' => tag_at (text s'') 3 = tag_at (text s') 3
    | None => False
    end
  | None => False
  end.
Proof.
  destruct (_find ascii_tolower 10 (Some (str "ab"))
              (editing (str "xabAB") (MkDisk ∅ ∅))) as [s'|] eqn:E1;
    [|vm_compute in E1; discriminate].
  destruct (_find ascii_tolower 10 (Some (str "ab")) s') as [s''|] eqn:E2.
  - apply (find_depends_on_text ascii_tolower 10 10 97%N (str "b")
             s' (editing (str "xabAB") (MkDisk ∅ ∅)) s'' s');
      [|exact E2 | exact E1].
    now destruct (find_frame _ _ _ _ _ E1) as (_ & _ & _ & _ & C).
  - vm_compute in E1. injection E1 as <-. vm_compute in E2. discriminate.
Defined.

(** X16.  Whatever it replaces, a Replace whose prompts were answered
    leaves the cursor at the end of the buffer and no character
    highlighted, shows exactly its two dialogs, and changes neither the
    path, nor [modified] itself, nor the disk. *)
Theorem replace_moves_cursor (s : Editor) (c : codepoint) (f r : pystr) :
  insert_mark (text s) <= end_index (text s) ->
  let s' := _replace (Some (c :: f)) (Some r) s in
  insert_mark (text s') = end_index (text s')
  /\ Forall (fun x => snd x = false) (cells (text s'))
  /\ prompts s'
     = prompts s ++ [askstring "Replace" "Find:";
                     askstring "Replace" "Replace with:"]
  /\ filename s' = filename s /\ modified s' = modified s
  /\ disk s' = disk s.
Proof.
  intros H. cbv zeta. unfold _replace.
  cbn [text set_text ask filename modified disk prompts].
  split; [|split; [|repeat split]].
  - pose proof (cells_delete_all (text s)) as Ec.
    pose proof (insert_mark_delete_all (text s) H) as Em.
    unfold insert_end, insert_at, end_index in *.
    destruct (str_replace (c :: f) r (get_all (text s))) as [|x content].
    + rewrite Em, Ec. reflexivity.
    + rewrite insert_mark_set_dirty, set_dirty_cells.
      cbn [insert_mark cells]. rewrite Em, Ec.
      cbn [length Nat.min Nat.leb take drop app].
      rewrite app_nil_r, length_map. reflexivity.
  - rewrite cells_rewritten. apply Forall_map. now apply Forall_true.
  - now rewrite <- app_assoc.
Qed.

Lemma replace_moves_cursor_witness :
  let s' := _replace (Some (str "a")) (Some (str "bb"))
              (set_text (mark_set_insert 0 (text (editing (str "aXa") (MkDisk ∅ ∅)))) (editing (str "aXa") (MkDisk ∅ ∅))) in
  insert_mark (text s') = end_index (text s').
Proof.
  refine (proj1 (replace_moves_cursor
                   (set_text (mark_set_insert 0 (text (editing (str "aXa") (MkDisk ∅ ∅)))) (editing (str "aXa") (MkDisk ∅ ∅)))
                   97%N [] (str "bb") _)).
  vm_compute. lia.
Defined.

End Extras.
